(** * Plane battle game: the simulation tick and the high-score route

    A shallow embedding of the two source files of the repository:

    - the React component [PlaneGame] (the canvas game: [resetGame],
      [startGame], [spawnEnemy], [spawnPowerUp], [shootBullet] and
      [updateGame]);
    - the route [app/api/highscore/route.ts] ([GET] and [POST]).

    Conventions of the embedding.

    - A JavaScript [number] is an exact rational ([Q]): the arithmetic of the
      game (additions, multiplications by constants, comparisons) is modelled
      without rounding.  Comparisons are the boolean tests of the source.
      The source computes in binary64, which rounds.  The positions of the
      player, its health, the points and the scores are whole numbers and
      exact in both; where a rounding changes an outcome (the size pickup,
      the speed of an enemy, the thresholds of the draws, the fading of an
      explosion, the bound of the spawn check, the layout of a volley) the
      computation is redone on primitive floats in the module [Binary64],
      and the statements keep to what holds in both arithmetics: the
      expressions of the source, bounds that the rounded values meet as
      well, and thresholds that leave out the one draw on which the two
      disagree.
    - The objects held by the [useRef] cells are mutated in place by the
      source; here they are the fields of the record [Refs], threaded through
      every function.
    - The values held by [useState] are constants of one render: a tick reads
      them from the closure and only queues updates ([Update]), which are
      applied when the tick is over ([commit]); the component is taken to
      render between two frames.
    - [Math.random()] reads the next cell of a tape of integers and scales it
      into the interval from 0 (included) to 1 (excluded).
    - The draw calls on the canvas context do not touch the state and are
      left out; the canvas is taken to be mounted.

    The file has the definitions first (entities, state, the functions of
    the component, runs, the route, sample data) and then the properties:
    the collision test, firing, power-ups, the invariants of a frame and of
    a run, the bullet pass, the enemy pass, the spawning of power-ups, the
    end of a game, and the route. *)

From Stdlib Require Import String Bool ZArith QArith Qminmax Qround Lqa Lia List.
From Stdlib Require PrimFloat.
From Stdlib Require Import Permutation.
Import ListNotations.
Open Scope Q_scope.

(** ** Numbers *)

Definition number := Q.

(** The comparison operators of the source, as boolean tests. *)
Definition ltb (a b : number) : bool := negb (Qle_bool b a).
Definition gtb (a b : number) : bool := ltb b a.
Definition leb (a b : number) : bool := Qle_bool a b.

Definition Math_max (a b : number) : number := Qmax a b.
Definition Math_min (a b : number) : number := Qmin a b.
Definition Math_floor (a : number) : Z := Qfloor a.

(** Number of iterations of [for (let i = 0; i < n; i++)]. *)
Definition trips (n : number) : nat := Z.to_nat (Qceiling n).

Definition of_nat (i : nat) : number := inject_Z (Z.of_nat i).

(** ** Entities *)

Module Player.
Record t := mk {
  x : number; y : number; width : number; height : number;
  speed : number; health : number; maxHealth : number;
  bulletSize : number; fireRate : number; bulletCount : number;
  lastShot : number }.

Definition set_x (v : number) (p : t) : t :=
  mk v (y p) (width p) (height p) (speed p) (health p) (maxHealth p)
     (bulletSize p) (fireRate p) (bulletCount p) (lastShot p).
Definition set_y (v : number) (p : t) : t :=
  mk (x p) v (width p) (height p) (speed p) (health p) (maxHealth p)
     (bulletSize p) (fireRate p) (bulletCount p) (lastShot p).
Definition set_health (v : number) (p : t) : t :=
  mk (x p) (y p) (width p) (height p) (speed p) v (maxHealth p)
     (bulletSize p) (fireRate p) (bulletCount p) (lastShot p).
Definition set_bulletSize (v : number) (p : t) : t :=
  mk (x p) (y p) (width p) (height p) (speed p) (health p) (maxHealth p)
     v (fireRate p) (bulletCount p) (lastShot p).
Definition set_fireRate (v : number) (p : t) : t :=
  mk (x p) (y p) (width p) (height p) (speed p) (health p) (maxHealth p)
     (bulletSize p) v (bulletCount p) (lastShot p).
Definition set_bulletCount (v : number) (p : t) : t :=
  mk (x p) (y p) (width p) (height p) (speed p) (health p) (maxHealth p)
     (bulletSize p) (fireRate p) v (lastShot p).
Definition set_lastShot (v : number) (p : t) : t :=
  mk (x p) (y p) (width p) (height p) (speed p) (health p) (maxHealth p)
     (bulletSize p) (fireRate p) (bulletCount p) v.
End Player.

Module Bullet.
Record t := mk {
  x : number; y : number; width : number; height : number;
  speed : number; damage : number; size : number }.

Definition set_y (v : number) (b : t) : t :=
  mk (x b) v (width b) (height b) (speed b) (damage b) (size b).
End Bullet.

Inductive EnemyType := small | medium | large.

Module Enemy.
Record t := mk {
  x : number; y : number; width : number; height : number;
  speed : number; health : number; maxHealth : number;
  type : EnemyType }.

Definition set_y (v : number) (e : t) : t :=
  mk (x e) v (width e) (height e) (speed e) (health e) (maxHealth e) (type e).
Definition set_health (v : number) (e : t) : t :=
  mk (x e) (y e) (width e) (height e) (speed e) v (maxHealth e) (type e).
End Enemy.

Inductive PowerUpType := size | rate | count.

Module PowerUp.
Record t := mk {
  x : number; y : number; width : number; height : number;
  speed : number; type : PowerUpType }.

Definition set_y (v : number) (u : t) : t :=
  mk (x u) v (width u) (height u) (speed u) (type u).
End PowerUp.

Module Explosion.
Record t := mk {
  x : number; y : number; radius : number; maxRadius : number;
  opacity : number }.
End Explosion.

Inductive GameState := start | playing | paused | gameover.

Definition CANVAS_WIDTH : number := 600.
Definition CANVAS_HEIGHT : number := 800.

(** ** State of the component *)

(** The [useRef] cells. [cursor] is the position on the random tape. *)
Record Refs := mkRefs {
  player : Player.t;
  bullets : list Bullet.t;
  enemies : list Enemy.t;
  powerUps : list PowerUp.t;
  explosions : list Explosion.t;
  cursor : nat }.

Definition set_player (v : Player.t) (r : Refs) : Refs :=
  mkRefs v (bullets r) (enemies r) (powerUps r) (explosions r) (cursor r).
Definition set_bullets (v : list Bullet.t) (r : Refs) : Refs :=
  mkRefs (player r) v (enemies r) (powerUps r) (explosions r) (cursor r).
Definition set_enemies (v : list Enemy.t) (r : Refs) : Refs :=
  mkRefs (player r) (bullets r) v (powerUps r) (explosions r) (cursor r).
Definition set_powerUps (v : list PowerUp.t) (r : Refs) : Refs :=
  mkRefs (player r) (bullets r) (enemies r) v (explosions r) (cursor r).
Definition set_explosions (v : list Explosion.t) (r : Refs) : Refs :=
  mkRefs (player r) (bullets r) (enemies r) (powerUps r) v (cursor r).
Definition set_cursor (v : nat) (r : Refs) : Refs :=
  mkRefs (player r) (bullets r) (enemies r) (powerUps r) (explosions r) v.

(** The [useState] values of one render. *)
Record Hooks := mkHooks {
  gameState : GameState;
  score : number;
  highScore : number;
  health : number;
  isNewRecord : bool }.

(** What a tick queues: the state setters it calls and the request it
    sends ([updateHighScore] posts the score to the route). *)
Inductive Update :=
| SetGameState (s : GameState)
| SetScore (v : number)
| AddScore (points : number)      (* setScore(prev => prev + points) *)
| SetHealth (v : number)
| SetIsNewRecord (b : bool)
| PostHighScore (newScore : number).

(** A running tick: the refs and the queue, oldest update first. *)
Record Sim := mkSim { refs : Refs; queue : list Update }.

Definition on_refs (f : Refs -> Refs) (s : Sim) : Sim :=
  mkSim (f (refs s)) (queue s).
Definition emit (u : Update) (s : Sim) : Sim :=
  mkSim (refs s) (queue s ++ [u]).

(** The component between two frames: the rendered hooks, the refs, and
    the scores posted to the route so far. *)
Record Game := mkGame {
  hooks : Hooks;
  world : Refs;
  posted : list number }.

(** ** Helpers of the embedding *)

(** [Array.prototype.filter] with a callback that also mutates the element
    it is given and the surrounding state: [Some a'] keeps the (mutated)
    element, [None] drops it.  Elements are visited once, in order. *)
Fixpoint filter_mut {A S : Type} (f : A -> S -> option A * S)
         (l : list A) (s : S) : list A * S :=
  match l with
  | [] => ([], s)
  | a :: l' =>
      let '(kept, s1) := f a s in
      let '(rest, s2) := filter_mut f l' s1 in
      (match kept with Some a' => a' :: rest | None => rest end, s2)
  end.

(** The rectangle test that the source writes out at its three collision
    sites: [a.x < b.x + b.width && a.x + a.width > b.x &&
            a.y < b.y + b.height && a.y + a.height > b.y]. *)
Definition intersects (ax ay aw ah bx by_ bw bh : number) : bool :=
  ltb ax (bx + bw) && gtb (ax + aw) bx &&
  ltb ay (by_ + bh) && gtb (ay + ah) by_.

Definition initialPlayer : Player.t :=
  Player.mk (CANVAS_WIDTH / 2 - 25) (CANVAS_HEIGHT - 100) 50 50
            6 100 100 1 200 1 0.

Definition initialRefs : Refs := mkRefs initialPlayer [] [] [] [] 0.

Definition initialHooks : Hooks := mkHooks start 0 0 100 false.

Definition initialGame : Game := mkGame initialHooks initialRefs [].

(** Applying the queued updates at the end of a tick or of an event
    handler. *)
Definition apply_update (st : Hooks * list number) (u : Update)
  : Hooks * list number :=
  let '(h, sent) := st in
  match u with
  | SetGameState s =>
      (mkHooks s (score h) (highScore h) (health h) (isNewRecord h), sent)
  | SetScore v =>
      (mkHooks (gameState h) v (highScore h) (health h) (isNewRecord h), sent)
  | AddScore points =>
      (mkHooks (gameState h) (score h + points) (highScore h) (health h)
               (isNewRecord h), sent)
  | SetHealth v =>
      (mkHooks (gameState h) (score h) (highScore h) v (isNewRecord h), sent)
  | SetIsNewRecord b =>
      (mkHooks (gameState h) (score h) (highScore h) (health h) b, sent)
  | PostHighScore v => (h, sent ++ [v])
  end.

Definition commit (g : Game) (s : Sim) : Game :=
  let '(h, sent) := fold_left apply_update (queue s) (hooks g, posted g) in
  mkGame h (refs s) sent.

(** ** The component's functions *)

Section Simulation.

(** The source of randomness: cell [i] of the tape feeds the [i]-th call
    of [Math.random()]. *)
Variable tape : nat -> Z.

Definition RESOLUTION : positive := 9007199254740992.

Definition Math_random (r : Refs) : number * Refs :=
  ((tape (cursor r) mod Zpos RESOLUTION) # RESOLUTION,
   set_cursor (S (cursor r)) r).

Definition resetGame (s : Sim) : Sim :=
  let s := on_refs (set_player initialPlayer) s in
  let s := on_refs (set_bullets []) s in
  let s := on_refs (set_enemies []) s in
  let s := on_refs (set_powerUps []) s in
  let s := on_refs (set_explosions []) s in
  let s := emit (SetScore 0) s in
  let s := emit (SetHealth 100) s in
  emit (SetIsNewRecord false) s.

Definition startGame (g : Game) : Game :=
  let s := resetGame (mkSim (world g) []) in
  let s := emit (SetGameState playing) s in
  commit g s.

Definition spawnEnemy (r : Refs) : Refs :=
  let '(type, r) := Math_random r in
  if ltb type 0.6 then
    let '(rx, r) := Math_random r in
    let '(rs, r) := Math_random r in
    set_enemies
      (enemies r ++
       [Enemy.mk (rx * (CANVAS_WIDTH - 40)) (-40) 40 40 (2 + rs * 1.5)
                 20 20 small]) r
  else if ltb type 0.9 then
    let '(rx, r) := Math_random r in
    let '(rs, r) := Math_random r in
    set_enemies
      (enemies r ++
       [Enemy.mk (rx * (CANVAS_WIDTH - 60)) (-60) 60 60 (1.5 + rs * 0.5)
                 40 40 medium]) r
  else
    let '(rx, r) := Math_random r in
    set_enemies
      (enemies r ++
       [Enemy.mk (rx * (CANVAS_WIDTH - 80)) (-80) 80 80 1 80 80 large]) r.

Definition types : list PowerUpType := [size; rate; count].

Definition spawnPowerUp (x y : number) (r : Refs) : Refs :=
  let '(roll, r) := Math_random r in
  if gtb roll 0.3 then r
  else
    let '(pick, r) := Math_random r in
    let type :=
      nth (Z.to_nat (Math_floor (pick * of_nat (length types)))) types count in
    set_powerUps (powerUps r ++ [PowerUp.mk (x - 20) y 40 40 2 type]) r.

Definition shootBullet (timestamp : number) (r : Refs) : Refs :=
  let player := player r in
  if ltb (timestamp - Player.lastShot player) (Player.fireRate player) then r
  else
    let player := Player.set_lastShot timestamp player in
    let bulletWidth := 6 * Player.bulletSize player in
    let bulletHeight := 12 * Player.bulletSize player in
    let totalWidth := Player.bulletCount player * bulletWidth in
    let startX :=
      Player.x player + Player.width player / 2 - totalWidth / 2
      + bulletWidth / 2 in
    let volley :=
      map (fun i =>
             Bullet.mk (startX + of_nat i * bulletWidth * 1.5)
                       (Player.y player) bulletWidth bulletHeight 10
                       (10 * Player.bulletSize player)
                       (Player.bulletSize player))
          (seq 0 (trips (Player.bulletCount player))) in
    set_bullets (bullets r ++ volley) (set_player player r).

(** *** The passes of [updateGame] *)

Definition held (keys : string -> bool) (a b : string) : bool :=
  keys a || keys b.

Definition movePlayer (keys : string -> bool) (player : Player.t) : Player.t :=
  let player :=
    if held keys "ArrowLeft" "KeyA"
    then Player.set_x
           (Math_max 0 (Player.x player - Player.speed player)) player
    else player in
  let player :=
    if held keys "ArrowRight" "KeyD"
    then Player.set_x
           (Math_min (CANVAS_WIDTH - Player.width player)
                     (Player.x player + Player.speed player)) player
    else player in
  let player :=
    if held keys "ArrowUp" "KeyW"
    then Player.set_y
           (Math_max 0 (Player.y player - Player.speed player)) player
    else player in
  if held keys "ArrowDown" "KeyS"
  then Player.set_y
         (Math_min (CANVAS_HEIGHT - Player.height player)
                   (Player.y player + Player.speed player)) player
  else player.

(** First filter over the bullets: move up, drop those that left the
    screen. *)
Definition moveBullet (bullet : Bullet.t) (s : Sim) : option Bullet.t * Sim :=
  let bullet := Bullet.set_y (Bullet.y bullet - Bullet.speed bullet) bullet in
  (if gtb (Bullet.y bullet) (- Bullet.height bullet)
   then Some bullet else None, s).

Definition maybeSpawnEnemy (score : number) (r : Refs) : Refs :=
  let '(roll, r) := Math_random r in
  if ltb roll (0.012 + score * 0.00005) then spawnEnemy r else r.

Definition hitsPlayer (player : Player.t) (enemy : Enemy.t) : bool :=
  intersects (Player.x player) (Player.y player)
             (Player.width player) (Player.height player)
             (Enemy.x enemy) (Enemy.y enemy)
             (Enemy.width enemy) (Enemy.height enemy).

(** Filter over the enemies: move down, collide with the player. *)
Definition enemyStep (enemy : Enemy.t) (s : Sim) : option Enemy.t * Sim :=
  let enemy := Enemy.set_y (Enemy.y enemy + Enemy.speed enemy) enemy in
  let p := player (refs s) in
  if hitsPlayer p enemy then
    let p := Player.set_health (Player.health p - 20) p in
    let s := on_refs (set_player p) s in
    let s := emit (SetHealth (Player.health p)) s in
    let cx := Enemy.x enemy + Enemy.width enemy / 2 in
    let cy := Enemy.y enemy + Enemy.height enemy / 2 in
    let s :=
      on_refs (fun r =>
                 set_explosions
                   (explosions r ++ [Explosion.mk cx cy 0 50 1]) r) s in
    let s := on_refs (spawnPowerUp cx cy) s in
    (None, s)
  else
    (if ltb (Enemy.y enemy) (CANVAS_HEIGHT + Enemy.height enemy)
     then Some enemy else None, s).

Definition picksUp (player : Player.t) (powerUp : PowerUp.t) : bool :=
  intersects (Player.x player) (Player.y player)
             (Player.width player) (Player.height player)
             (PowerUp.x powerUp) (PowerUp.y powerUp)
             (PowerUp.width powerUp) (PowerUp.height powerUp).

(** The effect of a picked power-up on the player. *)
Definition applyPowerUp (type : PowerUpType) (player : Player.t) : Player.t :=
  match type with
  | size =>
      Player.set_bulletSize (Math_min 2 (Player.bulletSize player + 0.3)) player
  | rate =>
      Player.set_fireRate (Math_max 50 (Player.fireRate player - 30)) player
  | count =>
      Player.set_bulletCount (Math_min 5 (Player.bulletCount player + 1)) player
  end.

(** Filter over the power-ups: fall, get picked up. *)
Definition powerUpStep (powerUp : PowerUp.t) (s : Sim)
  : option PowerUp.t * Sim :=
  let powerUp :=
    PowerUp.set_y (PowerUp.y powerUp + PowerUp.speed powerUp) powerUp in
  let p := player (refs s) in
  if picksUp p powerUp then
    (None, on_refs (set_player (applyPowerUp (PowerUp.type powerUp) p)) s)
  else
    (if ltb (PowerUp.y powerUp) (CANVAS_HEIGHT + PowerUp.height powerUp)
     then Some powerUp else None, s).

Definition hitsEnemy (bullet : Bullet.t) (enemy : Enemy.t) : bool :=
  intersects (Bullet.x bullet) (Bullet.y bullet)
             (Bullet.width bullet) (Bullet.height bullet)
             (Enemy.x enemy) (Enemy.y enemy)
             (Enemy.width enemy) (Enemy.height enemy).

Definition points (type : EnemyType) : number :=
  match type with small => 10 | medium => 25 | large => 50 end.

(** Inner filter of the bullet pass: one bullet against one enemy.  The
    state carries the local flag [bulletHit]. *)
Definition hitStep (bullet : Bullet.t) (enemy : Enemy.t) (st : bool * Sim)
  : option Enemy.t * (bool * Sim) :=
  let '(bulletHit, s) := st in
  if hitsEnemy bullet enemy then
    let enemy :=
      Enemy.set_health (Enemy.health enemy - Bullet.damage bullet) enemy in
    let bulletHit := true in
    if leb (Enemy.health enemy) 0 then
      let cx := Enemy.x enemy + Enemy.width enemy / 2 in
      let cy := Enemy.y enemy + Enemy.height enemy / 2 in
      let s :=
        on_refs (fun r =>
                   set_explosions
                     (explosions r ++
                      [Explosion.mk cx cy 0 (Enemy.width enemy) 1]) r) s in
      let s := on_refs (spawnPowerUp cx cy) s in
      let s := emit (AddScore (points (Enemy.type enemy))) s in
      (None, (bulletHit, s))
    else (Some enemy, (bulletHit, s))
  else (Some enemy, (bulletHit, s)).

(** Outer filter of the bullet pass: one bullet against all enemies. *)
Definition bulletStep (bullet : Bullet.t) (s : Sim) : option Bullet.t * Sim :=
  let '(survivors, (bulletHit, s)) :=
    filter_mut (hitStep bullet) (enemies (refs s)) (false, s) in
  let s := on_refs (set_enemies survivors) s in
  (if negb bulletHit then Some bullet else None, s).

Definition explosionStep (explosion : Explosion.t) (s : Sim)
  : option Explosion.t * Sim :=
  let explosion :=
    Explosion.mk (Explosion.x explosion) (Explosion.y explosion)
                 (Explosion.radius explosion + 3)
                 (Explosion.maxRadius explosion)
                 (Explosion.opacity explosion - 0.03) in
  (if gtb (Explosion.opacity explosion) 0 then Some explosion else None, s).

Definition bulletsMove (s : Sim) : Sim :=
  let '(l, s) := filter_mut moveBullet (bullets (refs s)) s in
  on_refs (set_bullets l) s.
Definition enemiesPass (s : Sim) : Sim :=
  let '(l, s) := filter_mut enemyStep (enemies (refs s)) s in
  on_refs (set_enemies l) s.
Definition powerUpsPass (s : Sim) : Sim :=
  let '(l, s) := filter_mut powerUpStep (powerUps (refs s)) s in
  on_refs (set_powerUps l) s.
Definition bulletsPass (s : Sim) : Sim :=
  let '(l, s) := filter_mut bulletStep (bullets (refs s)) s in
  on_refs (set_bullets l) s.
Definition explosionsPass (s : Sim) : Sim :=
  let '(l, s) := filter_mut explosionStep (explosions (refs s)) s in
  on_refs (set_explosions l) s.

(** The end of [updateGame]: the terminal check.  [score] is the value of
    the render the callback was created in. *)
Definition gameOverCheck (score : number) (s : Sim) : Sim :=
  if leb (Player.health (player (refs s))) 0 then
    emit (PostHighScore score) (emit (SetGameState gameover) s)
  else s.

Definition updateGame (timestamp : number) (keys : string -> bool)
           (h : Hooks) (r : Refs) : Sim :=
  let s := mkSim r [] in
  match gameState h with
  | playing =>
      let s := on_refs (fun r => set_player (movePlayer keys (player r)) r) s in
      let s := on_refs (shootBullet timestamp) s in
      let s := bulletsMove s in
      let s := on_refs (maybeSpawnEnemy (score h)) s in
      let s := enemiesPass s in
      let s := powerUpsPass s in
      let s := bulletsPass s in
      let s := explosionsPass s in
      gameOverCheck (score h) s
  | _ => s
  end.

(** One frame: [updateGame], then the render that applies what it queued. *)
Definition tick (timestamp : number) (keys : string -> bool) (g : Game)
  : Game :=
  commit g (updateGame timestamp keys (hooks g) (world g)).

End Simulation.

(** ** Runs of the component *)

(** What happens to the mounted component: a click on the start (or
    restart) button, or an animation frame with its timestamp and the keys
    held at that moment. *)
Inductive Event :=
| Click
| Frame (timestamp : number) (keys : string -> bool).

Definition step (tape : nat -> Z) (g : Game) (e : Event) : Game :=
  match e with
  | Click => startGame g
  | Frame timestamp keys => tick tape timestamp keys g
  end.

Definition run (tape : nat -> Z) (events : list Event) : Game :=
  fold_left (step tape) events initialGame.

(** ** The high-score route *)

Module Route.

(** A parsed JSON value; an object is its list of properties. *)
#[local] Unset Elimination Schemes.
Inductive json :=
| JNull
| JBool (b : bool)
| JNumber (n : number)
| JString (s : string)
| JArray (l : list json)
| JObject (fields : list (string * json)).
#[local] Set Elimination Schemes.

(** A row of the table [gameScore]. *)
Record GameScore := mkGameScore { score : number }.

(** Modelled from the spec: the database client [db] of [@/lib/db], which is
    not among the sources.  The store is the list of the rows of
    [gameScore], oldest first, that holds any number as a score; a call
    on a store that is not [online] throws. *)
Record Db := mkDb { gameScore : list GameScore; online : bool }.

(** Modelled from the spec: [db.gameScore.findFirst({ orderBy: { score:
    'desc' } })], the row with the greatest score ([None] is [null]). *)
Fixpoint greatest (rows : list GameScore) : option GameScore :=
  match rows with
  | [] => None
  | row :: rest =>
      match greatest rest with
      | None => Some row
      | Some m => if ltb (score row) (score m) then Some m else Some row
      end
  end.

(** Modelled from the spec: the two calls on [db.gameScore]; the outer
    [None] is a thrown error. *)
Definition findFirst (db : Db) : option (option GameScore) :=
  if online db then Some (greatest (gameScore db)) else None.

Definition create (data : number) (db : Db) : option (GameScore * Db) :=
  if online db
  then Some (mkGameScore data,
             mkDb (gameScore db ++ [mkGameScore data]) (online db))
  else None.

(** The JSON bodies of the responses, with their status. *)
Inductive Response :=
| Fetched (highScore : number)
    (* 200 { success: true, highScore } *)
| Submitted (highScore : number) (isNewRecord : bool)
    (* 200 { success: true, highScore, isNewRecord } *)
| Failed (status : Z) (error : string).
    (* { success: false, error } *)

(** [body.score] for a body that is not [null]: only an object can carry
    the property. *)
Fixpoint property (name : string) (fields : list (string * json))
  : option json :=
  match fields with
  | [] => None
  | (k, v) :: rest => if String.eqb k name then Some v else property name rest
  end.

Definition GET (db : Db) : Response :=
  match findFirst db with
  | Some highScore =>
      Fetched
        match highScore with
        | Some row => if Qeq_bool (score row) 0 then 0 else score row
        | None => 0
        end
  | None => Failed 500 "Failed to fetch high score"
  end.

(** [const { score } = body] for a body that is not [null]. *)
Definition scoreOf (body : json) : option json :=
  match body with JObject fields => property "score" fields | _ => None end.

(** [body] is the request body; [None] when it is not JSON, so that
    [request.json()] throws.  The handler is taken to run from its request
    to its answer with no other request served between its two calls on
    the database. *)
Definition POST (body : option json) (db : Db) : Response * Db :=
  let failure := (Failed 500 "Failed to update high score", db) in
  match body with
  | None => failure
  | Some JNull => failure
  | Some body =>
      match scoreOf body with
      | Some (JNumber score) =>
          if ltb score 0 then (Failed 400 "Invalid score", db)
          else
            match findFirst db with
            | None => failure
            | Some currentHighScore =>
                let created :=
                  match create score db with
                  | None => failure
                  | Some (newHighScore, db) =>
                      (Submitted (Route.score newHighScore) true, db)
                  end in
                match currentHighScore with
                | None => created
                | Some row =>
                    if gtb score (Route.score row) then created
                    else (Submitted (Route.score row) false, db)
                end
            end
      | _ => (Failed 400 "Invalid score", db)
      end
  end.

End Route.

(** ** The computations that round in binary64 *)

(** The only arithmetic of the pickups that is not exact in the doubles of
    JavaScript is [bulletSize + 0.3].  This module redoes that update and
    the other computations of the game that round on the primitive
    binary64 floats, to compare their outcomes with the rational ones.  A
    literal of the source that is not a double is written here as the
    double nearest to it, in hexadecimal. *)
Module Binary64.
Import PrimFloat.

(** [Math.min] on two doubles (up to the sign of a zero result). *)
Definition Math_min (a b : float) : float :=
  if PrimFloat.is_nan a || PrimFloat.is_nan b then PrimFloat.nan
  else if PrimFloat.ltb b a then b else a.

(** The double nearest to 0.3. *)
Definition three_tenths : float := 0x1.3333333333333p-2%float.

Definition one : float := 1%float.
Definition two : float := 2%float.

Definition pickSize (bulletSize : float) : float :=
  Math_min two (PrimFloat.add bulletSize three_tenths).

(** The doubles nearest to 0.03, 0.012 and 0.00005. *)
Definition three_hundredths : float := 0x1.eb851eb851eb8p-6%float.
Definition twelve_thousandths : float := 0x1.89374bc6a7efap-7%float.
Definition five_hundred_thousandths : float := 0x1.a36e2eb1c432dp-15%float.

(** The largest value of [Math.random()]: 1 - 2^-53. *)
Definition top_draw : float := 0x1.fffffffffffffp-1%float.

(** The largest draw below two thirds, (2^54 - 1) / 3 / 2^53, and the
    double nearest to 0.6, which is a draw as well. *)
Definition below_two_thirds : float := 0x1.5555555555555p-1%float.
Definition below_six_tenths : float := 0x1.3333333333333p-1%float.

(** [spawnEnemy]: the speed of a small and of a medium enemy, the column
    of an enemy of a given width, and the kind drawn. *)
Definition smallSpeed (draw : float) : float := (2 + draw * 1.5)%float.
Definition mediumSpeed (draw : float) : float := (1.5 + draw * 0.5)%float.
Definition column (draw width : float) : float :=
  (draw * (600 - width))%float.
Definition kind (type : float) : EnemyType :=
  if (type <? below_six_tenths)%float then small
  else if (type <? 0x1.ccccccccccccdp-1)%float then medium else large.

(** [updateGame]: the bound of the spawn check,
    [0.012 + score * 0.00005]. *)
Definition spawnBound (score : float) : float :=
  (twelve_thousandths + score * five_hundred_thousandths)%float.

(** [spawnPowerUp]: [Math.floor(pick * types.length)] for a draw [pick];
    the product is at least 0 and below 3. *)
Definition pickIndex (pick : float) : nat :=
  let product := (pick * 3)%float in
  if (product <? 1)%float then 0%nat
  else if (product <? 2)%float then 1%nat else 2%nat.

(** [updateGame]: one pass over an explosion, of which only the radius and
    the opacity matter, and [k] passes; [None] when it is removed. *)
Definition explosionStep (explosion : float * float) : option (float * float) :=
  let radius := (fst explosion + 3)%float in
  let opacity := (snd explosion - three_hundredths)%float in
  if (0 <? opacity)%float then Some (radius, opacity) else None.

Fixpoint passes (k : nat) (explosion : float * float)
  : option (float * float) :=
  match k with
  | O => Some explosion
  | S k =>
      match passes k explosion with
      | Some explosion => explosionStep explosion
      | None => None
      end
  end.

(** An explosion as it is created: radius 0, opacity 1. *)
Definition fresh : float * float := (0%float, 1%float).

(** [shootBullet]: the left edge of bullet [i] of a volley of [count]
    bullets, for a player of width 50 at [x]; and the closed form
    [mid + width * (1.5 i - (count - 1) / 2)] of the same. *)
Definition bulletX (x size count i : float) : float :=
  let bulletWidth := (6 * size)%float in
  let totalWidth := (count * bulletWidth)%float in
  let startX := (x + 50 / 2 - totalWidth / 2 + bulletWidth / 2)%float in
  (startX + i * bulletWidth * 1.5)%float.

Definition layoutX (x size count i : float) : float :=
  (x + 50 / 2 + 6 * size * (1.5 * i - (count - 1) / 2))%float.

(** The whole number [n] as a double. *)
Definition of_nat (n : nat) : float :=
  Nat.iter n (fun f => (f + 1)%float) 0%float.

End Binary64.

(** ** Sample data *)

Definition noKeys : string -> bool := fun _ => false.
Definition upLeft : string -> bool :=
  fun k => String.eqb k "ArrowUp" || String.eqb k "ArrowLeft".
Definition rightKey : string -> bool := fun k => String.eqb k "ArrowRight".

(** The tape cell that [Math_random] turns into (about) [num / den]. *)
Definition cell (num den : Z) : Z := (num * Zpos RESOLUTION / den)%Z.

(** A tape given by its first cells; every later draw is one half, for
    which no enemy and no power-up is spawned. *)
Definition tape_of (cells : list Z) : nat -> Z :=
  fun i => nth i cells (cell 1 2).

Definition quiet (n : nat) : list Z := repeat (cell 1 2) n.

(** The draws of a frame that spawns a small enemy of speed 2 at x = 20
    (a hair less), and of one that spawns a large one at x = 52. *)
Definition spawnSmall : list Z := [0; 0; cell 1 28; 0]%Z.
Definition spawnLarge : list Z := [0; cell 95 100; cell 1 10]%Z.

(** Frames number [first] to [first + n - 1], one every 10 ms. *)
Definition frames (keys : string -> bool) (first n : nat) : list Event :=
  map (fun i => Frame (10 * of_nat i) keys) (seq first n).

(** A click on start, then 115 frames with up and left held: the player
    ends at x = 0, y = 10 and has last fired at 1000 ms. *)
Definition approach : list Event := Click :: frames upLeft 1 115.

(** Two small enemies above the player's nose, then a shot at 1200 ms. *)
Definition tape_pierce : nat -> Z :=
  tape_of (quiet 116 ++ spawnSmall ++ spawnSmall).
Definition before_pierce : Game :=
  run tape_pierce (approach ++ frames noKeys 116 4).
Definition after_pierce : Game :=
  run tape_pierce (approach ++ frames noKeys 116 4 ++ [Frame 1200 noKeys]).

(** Six large enemies beside the player, who then steps into them. *)
Definition tape_crash : nat -> Z :=
  tape_of (quiet 115 ++ concat (repeat spawnLarge 6)).
Definition before_crash : Game :=
  run tape_crash (approach ++ frames noKeys 116 16).
Definition after_crash : Game :=
  run tape_crash (approach ++ frames noKeys 116 16 ++ [Frame 1320 rightKey]).

(** The same six enemies, and a small one that a first shot (frame 140)
    leaves with 10 health; the last frame, at 1600 ms, shoots it down while
    the player steps into the six. *)
Definition tape_last : nat -> Z :=
  tape_of (quiet 115 ++ concat (repeat spawnLarge 6) ++ quiet 18 ++ spawnSmall).
Definition before_last : Game :=
  run tape_last (approach ++ frames noKeys 116 25).
Definition after_last : Game :=
  run tape_last (approach ++ frames noKeys 116 25 ++ [Frame 1600 rightKey]).

(** Where an enemy is (x rounded down), with its health and kind. *)
Definition sighting (enemy : Enemy.t) : Z * Q * Q * EnemyType :=
  (Qfloor (Enemy.x enemy), Qred (Enemy.y enemy),
   Qred (Enemy.health enemy), Enemy.type enemy).

(** Where the player is, with its health. *)
Definition bearing (g : Game) : Q * Q * Q :=
  (Qred (Player.x (player (world g))), Qred (Player.y (player (world g))),
   Qred (Player.health (player (world g)))).

Definition bulletAt (x y w h : number) : Bullet.t := Bullet.mk x y w h 10 10 1.
Definition enemyAt (x y w h : number) : Enemy.t :=
  Enemy.mk x y w h 2 20 20 small.

(** What one bullet does to one enemy in the bullet pass, read off
    [hitStep]: the enemy as it is left, and whether it is destroyed. *)
Definition struck (bullet : Bullet.t) (enemy : Enemy.t) : Enemy.t :=
  if hitsEnemy bullet enemy
  then Enemy.set_health (Enemy.health enemy - Bullet.damage bullet) enemy
  else enemy.

Definition destroyed (bullet : Bullet.t) (enemy : Enemy.t) : bool :=
  hitsEnemy bullet enemy &&
  leb (Enemy.health enemy - Bullet.damage bullet) 0.


(** The centre of an enemy, where its explosion and its power-up go. *)
Definition centerX (enemy : Enemy.t) : number :=
  Enemy.x enemy + Enemy.width enemy / 2.
Definition centerY (enemy : Enemy.t) : number :=
  Enemy.y enemy + Enemy.height enemy / 2.


(** The updates that the passes of a tick queue. *)
Definition benign (u : Update) : bool :=
  match u with SetHealth _ | AddScore _ => true | _ => false end.

(** From [s] to [s']: the maximal health is kept, the health has not
    grown, and only health and score updates were queued. *)
Definition advances (s s' : Sim) : Prop :=
  Player.maxHealth (player (refs s')) = Player.maxHealth (player (refs s)) /\
  Player.health (player (refs s')) <= Player.health (player (refs s)) /\
  exists q, queue s' = queue s ++ q /\ forallb benign q = true.

(** The bounds on the player's health that hold along a run. *)
Definition healthy (g : Game) : Prop :=
  Player.maxHealth (player (world g)) = 100 /\
  Player.health (player (world g)) <= Player.maxHealth (player (world g)) /\
  (gameState (hooks g) = playing -> 0 < Player.health (player (world g))).

(** The player's firing statistics as the data model bounds them: the
    bullet size between 1 and 2, the fire rate between 50 and 200, and a
    whole number of bullets between 1 and 5. *)
Definition inRange (p : Player.t) : Prop :=
  1 <= Player.bulletSize p <= 2 /\
  50 <= Player.fireRate p <= 200 /\
  exists n, (1 <= n <= 5)%nat /\ Player.bulletCount p == of_nat n.

(** From [s] to [s'], the property [P] of the player is kept. *)
Definition keeps (P : Player.t -> Prop) (s s' : Sim) : Prop :=
  P (player (refs s)) -> P (player (refs s')).

(** ** The rest of the component: the key handlers and the two requests *)

(** [handleKeyDown]: the key is recorded as held; the result also tells
    whether [preventDefault] was called. *)
Definition handleKeyDown (code : string) (keys : string -> bool)
  : (string -> bool) * bool :=
  (fun k => if String.eqb k code then true else keys k,
   existsb (String.eqb code)
           ["ArrowUp"; "ArrowDown"; "ArrowLeft"; "ArrowRight"; "Space"]%string).

(** [handleKeyUp]: the key is recorded as released. *)
Definition handleKeyUp (code : string) (keys : string -> bool)
  : string -> bool :=
  fun k => if String.eqb k code then false else keys k.

(** [fetchHighScore] against the route: the high score is set when the
    answer says [success]; any other answer is logged and changes nothing. *)
Definition fetchHighScore (db : Route.Db) (h : Hooks) : Hooks :=
  match Route.GET db with
  | Route.Fetched v =>
      mkHooks (gameState h) (score h) v (health h) (isNewRecord h)
  | _ => h
  end.

(** [updateHighScore] against the route: the body is
    [JSON.stringify({ score: newScore })]. *)
Definition updateHighScore (newScore : number) (db : Route.Db) (h : Hooks)
  : Hooks * Route.Db :=
  let '(response, db) :=
    Route.POST
      (Some (Route.JObject [("score"%string, Route.JNumber newScore)])) db in
  match response with
  | Route.Submitted v new =>
      (mkHooks (gameState h) (score h) v (health h) new, db)
  | _ => (h, db)
  end.

(** ** What holds of the entities between the stages of a frame *)

(** The player keeps its size and speed and stays on the canvas. *)
Definition playerOK (p : Player.t) : Prop :=
  Player.width p = 50 /\ Player.height p = 50 /\ Player.speed p = 6 /\
  0 <= Player.x p <= CANVAS_WIDTH - Player.width p /\
  0 <= Player.y p <= CANVAS_HEIGHT - Player.height p /\
  inRange p.

(** A bullet in flight: built for a size between 1 and 2, not yet above
    the canvas. *)
Definition bulletOK (b : Bullet.t) : Prop :=
  Bullet.speed b = 10 /\
  1 <= Bullet.size b <= 2 /\
  Bullet.width b = 6 * Bullet.size b /\
  Bullet.height b = 12 * Bullet.size b /\
  Bullet.damage b = 10 * Bullet.size b /\
  - Bullet.height b < Bullet.y b <= CANVAS_HEIGHT - 50.

(** The dimensions, health, speed and column that [spawnEnemy] gives to
    each kind of enemy.  The speed ranges include their upper ends: for
    the largest draw the doubles of the source round [2 + draw * 1.5] to
    3.5 and [1.5 + draw * 0.5] to 2 ([top_speeds_binary64]). *)
Definition shaped (e : Enemy.t) : Prop :=
  match Enemy.type e with
  | small =>
      Enemy.width e = 40 /\ Enemy.height e = 40 /\ Enemy.maxHealth e = 20 /\
      2 <= Enemy.speed e <= 3.5
  | medium =>
      Enemy.width e = 60 /\ Enemy.height e = 60 /\ Enemy.maxHealth e = 40 /\
      1.5 <= Enemy.speed e <= 2
  | large =>
      Enemy.width e = 80 /\ Enemy.height e = 80 /\ Enemy.maxHealth e = 80 /\
      1 <= Enemy.speed e <= 1
  end /\
  0 <= Enemy.x e < CANVAS_WIDTH - Enemy.width e.

(** An enemy of the collection: shaped, alive, and between its spawning
    line and the line below the canvas where it is dropped. *)
Definition enemyOK (e : Enemy.t) : Prop :=
  shaped e /\
  0 < Enemy.health e <= Enemy.maxHealth e /\
  - Enemy.height e <= Enemy.y e < CANVAS_HEIGHT + Enemy.height e.

Definition powerUpOK (u : PowerUp.t) : Prop :=
  PowerUp.width u = 40 /\ PowerUp.height u = 40 /\ PowerUp.speed u = 2.

(** An explosion that has been through [k] passes, at most 33: each pass
    adds 3 to its radius and takes 0.03 from its opacity, whatever its
    [maxRadius]. *)
Definition explosionOK (x : Explosion.t) : Prop :=
  exists k : nat,
    (k <= 33)%nat /\
    Explosion.radius x == 3 * of_nat k /\
    Explosion.opacity x == 1 - 0.03 * of_nat k.

Definition sound (r : Refs) : Prop :=
  playerOK (player r) /\
  Forall bulletOK (bullets r) /\
  Forall enemyOK (enemies r) /\
  Forall powerUpOK (powerUps r) /\
  Forall explosionOK (explosions r).

(** The rectangle of the player. *)
Definition spot (p : Player.t) : number * number * number * number :=
  (Player.x p, Player.y p, Player.width p, Player.height p).

(** Between two frames: sound, and no enemy on the player. *)
Definition settled (r : Refs) : Prop :=
  sound r /\ Forall (fun e => hitsPlayer (player r) e = false) (enemies r).

(** The points that a queue of updates adds to the score. *)
Fixpoint gains (q : list Update) : number :=
  match q with
  | [] => 0
  | AddScore v :: q => v + gains q
  | _ :: q => gains q
  end.

(** The updates of a frame that touch neither the state of the game nor
    the route: the health display, and points of 10, 25 or 50. *)
Definition scoring (u : Update) : bool :=
  match u with
  | SetHealth _ => true
  | AddScore v => Qeq_bool v 10 || Qeq_bool v 25 || Qeq_bool v 50
  | _ => false
  end.

(** The number of clicks on the start button among the events. *)
Definition clicks (events : list Event) : nat :=
  List.length (filter (fun e => match e with Click => true | _ => false end)
                      events).

(** ** The store as the route fills it *)

(** The store after a sequence of requests to [POST], from a store without
    records, when the requests are handled one at a time: each is answered
    before the next one is read, so that no two of them overlap. *)
Definition submitAll (requests : list (option Route.json)) : Route.Db :=
  fold_left (fun db request => snd (Route.POST request db)) requests
            (Route.mkDb [] true).

(** Scores in strictly increasing order, none negative. *)
Fixpoint climbing (rows : list Route.GameScore) : Prop :=
  match rows with
  | [] => True
  | row :: rest =>
      0 <= Route.score row /\
      Forall (fun later => Route.score row < Route.score later) rest /\
      climbing rest
  end.

(** ** Shorthands of the statements *)

(** The updates queued from [s] to [s'] are score and health updates only. *)
Definition tallies (s s' : Sim) : Prop :=
  exists q, queue s' = queue s ++ q /\ forallb scoring q = true.

(** A game in play has not posted its score yet. *)
Definition pending (s : GameState) : nat :=
  match s with playing => 1%nat | _ => 0%nat end.

(** The explosion and the points that a destroyed enemy leaves. *)
Definition blast (e : Enemy.t) : Explosion.t :=
  Explosion.mk (centerX e) (centerY e) 0 (Enemy.width e) 1.
Definition award (e : Enemy.t) : Update := AddScore (points (Enemy.type e)).

(** A power-up as the pass moves it, and whether it is still in view. *)
Definition fallen (u : PowerUp.t) : PowerUp.t :=
  PowerUp.set_y (PowerUp.y u + PowerUp.speed u) u.
Definition inSight (u : PowerUp.t) : bool :=
  ltb (PowerUp.y u) (CANVAS_HEIGHT + PowerUp.height u).

(** The player after picking the power-ups [l] up, in order. *)
Definition pickAll (l : list PowerUp.t) (p : Player.t) : Player.t :=
  fold_left (fun q u => applyPowerUp (PowerUp.type u) q) l p.

(** The store with one more record. *)
Definition grown (db : Route.Db) (s : number) : Route.Db :=
  Route.mkDb (Route.gameScore db ++ [Route.mkGameScore s]) (Route.online db).

(** Two draws of the tape on which binary64 and exact arithmetic part: the
    largest draw below two thirds, three times which the source rounds up
    to 2, and the double that the literal 0.6 of the source denotes, a
    little below six tenths. *)
Definition below_two_thirds : number := 6004799503160661 # 9007199254740992.
Definition below_six_tenths : number := 5404319552844595 # 9007199254740992.



(** [POST] awaits the database twice, for [findFirst] and for [create],
    and so two requests can overlap: [overlapped a b db] is the store
    after the valid scores [a] and [b] were submitted and both requests
    read the maximum of [db] before either created its record. *)
Definition beats (score : number) (current : option Route.GameScore) : bool :=
  match current with
  | None => true
  | Some row => gtb score (Route.score row)
  end.

Definition overlapped (a b : number) (db : Route.Db) : Route.Db :=
  let currentA := Route.greatest (Route.gameScore db) in
  let currentB := Route.greatest (Route.gameScore db) in
  let db := if beats a currentA then grown db a else db in
  if beats b currentB then grown db b else db.

(** * Properties *)

(** ** Comparisons *)

Lemma ltb_lt (a b : number) : ltb a b = true <-> a < b.
Proof.
  unfold ltb. rewrite negb_true_iff, <- not_true_iff_false, Qle_bool_iff.
  split; [apply Qnot_le_lt | apply Qlt_not_le].
Qed.

Lemma ltb_ge (a b : number) : ltb a b = false <-> b <= a.
Proof. unfold ltb. rewrite negb_false_iff. apply Qle_bool_iff. Qed.

Lemma gtb_gt (a b : number) : gtb a b = true <-> a > b.
Proof. apply ltb_lt. Qed.

Lemma gtb_le (a b : number) : gtb a b = false <-> a <= b.
Proof. apply ltb_ge. Qed.

Lemma leb_le (a b : number) : leb a b = true <-> a <= b.
Proof. apply Qle_bool_iff. Qed.

Lemma leb_gt (a b : number) : leb a b = false <-> b < a.
Proof.
  unfold leb. rewrite <- not_true_iff_false, Qle_bool_iff.
  split; [apply Qnot_le_lt | apply Qlt_not_le].
Qed.

Lemma intersects_iff (ax ay aw ah bx by_ bw bh : number) :
  intersects ax ay aw ah bx by_ bw bh = true <->
  ax < bx + bw /\ ax + aw > bx /\ ay < by_ + bh /\ ay + ah > by_.
Proof.
  unfold intersects.
  rewrite !andb_true_iff, !ltb_lt, !gtb_gt. tauto.
Qed.

(** The loop [for (let i = 0; i < n; i++)] runs its body for exactly the
    indices counted by [trips]. *)
Lemma trips_loop (n : number) (i : nat) :
  (i < trips n)%nat <-> of_nat i < n.
Proof.
  unfold trips, of_nat. split; intro H.
  - assert (Hi : (Z.of_nat i <= Qceiling n - 1)%Z) by lia.
    eapply Qle_lt_trans; [| apply Qceiling_lt].
    rewrite <- Zle_Qle. exact Hi.
  - assert (Hc : inject_Z (Z.of_nat i) < inject_Z (Qceiling n)).
    { eapply Qlt_le_trans; [exact H | apply Qle_ceiling]. }
    rewrite <- Zlt_Qlt in Hc. lia.
Qed.

Lemma trips_of_nat (n : number) (k : nat) : n == of_nat k -> trips n = k.
Proof.
  intro H. unfold trips, of_nat in *.
  rewrite (Qceiling_comp _ _ H), Qceiling_Z. apply Nat2Z.id.
Qed.

(** ** The collision test *)

Lemma bulletStep_single (tape : nat -> Z) (bullet : Bullet.t)
      (enemy : Enemy.t) (r : Refs) (q : list Update) :
  fst (bulletStep tape bullet (mkSim (set_enemies [enemy] r) q)) = None <->
  hitsEnemy bullet enemy = true.
Proof.
  unfold bulletStep. simpl. unfold hitStep.
  destruct (hitsEnemy bullet enemy).
  - destruct (leb _ 0); simpl; split; auto.
  - simpl. split; discriminate.
Qed.

(** C5: the collision test between two entities is the intersection of
    their axis-aligned rectangles with strict inequalities, at each of the
    three collision sites of the tick; a bullet is consumed by a lone enemy
    exactly when the test holds; the rectangles (0,0,10,10) and (5,5,10,10)
    intersect, and (0,0,10,10) and (10,10,10,10), which only touch, do not. *)
Theorem collision_is_strict_aabb :
  (forall bullet enemy,
      hitsEnemy bullet enemy = true <->
      Bullet.x bullet < Enemy.x enemy + Enemy.width enemy /\
      Bullet.x bullet + Bullet.width bullet > Enemy.x enemy /\
      Bullet.y bullet < Enemy.y enemy + Enemy.height enemy /\
      Bullet.y bullet + Bullet.height bullet > Enemy.y enemy) /\
  (forall player enemy,
      hitsPlayer player enemy = true <->
      Player.x player < Enemy.x enemy + Enemy.width enemy /\
      Player.x player + Player.width player > Enemy.x enemy /\
      Player.y player < Enemy.y enemy + Enemy.height enemy /\
      Player.y player + Player.height player > Enemy.y enemy) /\
  (forall player powerUp,
      picksUp player powerUp = true <->
      Player.x player < PowerUp.x powerUp + PowerUp.width powerUp /\
      Player.x player + Player.width player > PowerUp.x powerUp /\
      Player.y player < PowerUp.y powerUp + PowerUp.height powerUp /\
      Player.y player + Player.height player > PowerUp.y powerUp) /\
  (forall tape bullet enemy r q,
      fst (bulletStep tape bullet (mkSim (set_enemies [enemy] r) q)) = None <->
      hitsEnemy bullet enemy = true) /\
  hitsEnemy (bulletAt 0 0 10 10) (enemyAt 5 5 10 10) = true /\
  hitsEnemy (bulletAt 0 0 10 10) (enemyAt 10 10 10 10) = false.
Proof.
  repeat split; try (apply intersects_iff; assumption);
    try (apply bulletStep_single; assumption);
    try reflexivity;
    match goal with
    | H : _ = true |- _ => apply intersects_iff in H; tauto
    | |- _ = true => apply intersects_iff; tauto
    end.
Qed.

(** ** Firing *)

Lemma shootBullet_closed (timestamp : number) (r : Refs) :
  timestamp - Player.lastShot (player r) < Player.fireRate (player r) ->
  shootBullet timestamp r = r.
Proof.
  intro H. unfold shootBullet. apply ltb_lt in H. rewrite H. reflexivity.
Qed.

Lemma shootBullet_open (timestamp : number) (r : Refs) :
  Player.fireRate (player r) <= timestamp - Player.lastShot (player r) ->
  exists volley,
    shootBullet timestamp r =
      set_bullets (bullets r ++ volley)
                  (set_player (Player.set_lastShot timestamp (player r)) r) /\
    List.length volley = trips (Player.bulletCount (player r)) /\
    Forall (fun b =>
              Bullet.width b = 6 * Player.bulletSize (player r) /\
              Bullet.height b = 12 * Player.bulletSize (player r) /\
              Bullet.damage b = 10 * Player.bulletSize (player r) /\
              Bullet.y b = Player.y (player r)) volley.
Proof.
  intro H. unfold shootBullet. apply ltb_ge in H. rewrite H.
  eexists. split; [reflexivity |]. split.
  - rewrite length_map, length_seq. reflexivity.
  - apply Forall_forall. intros b Hb. apply in_map_iff in Hb.
    destruct Hb as [i [<- _]]. simpl. auto.
Qed.

(** C4: [shootBullet] fires exactly when [timestamp - lastShot >=
    fireRate]; it then sets [lastShot] to the timestamp and appends
    [bulletCount] bullets of width 6, height 12 and damage 10 times
    [bulletSize].  With a fire rate of 200 and the cooldown elapsed, a
    second call 150 ms later adds nothing and one 250 ms later adds a
    second volley. *)
Theorem shootBullet_cadence (r : Refs) (timestamp : number) :
  let p := player r in
  ((timestamp - Player.lastShot p < Player.fireRate p /\
    shootBullet timestamp r = r)
   \/
   (Player.fireRate p <= timestamp - Player.lastShot p /\
    exists volley,
      shootBullet timestamp r =
        set_bullets (bullets r ++ volley)
                    (set_player (Player.set_lastShot timestamp p) r) /\
      (forall n, Player.bulletCount p == of_nat n -> List.length volley = n) /\
      Forall (fun b =>
                Bullet.width b = 6 * Player.bulletSize p /\
                Bullet.height b = 12 * Player.bulletSize p /\
                Bullet.damage b = 10 * Player.bulletSize p) volley))
  /\
  (forall n,
      Player.fireRate p == 200 ->
      200 <= timestamp - Player.lastShot p ->
      Player.bulletCount p == of_nat n ->
      shootBullet (timestamp + 150) (shootBullet timestamp r) =
        shootBullet timestamp r /\
      List.length (bullets (shootBullet timestamp r)) =
        (List.length (bullets r) + n)%nat /\
      List.length (bullets (shootBullet (timestamp + 250)
                                        (shootBullet timestamp r))) =
        (List.length (bullets r) + n + n)%nat /\
      Player.lastShot (player (shootBullet (timestamp + 250)
                                           (shootBullet timestamp r))) =
        timestamp + 250).
Proof.
  intro p. split.
  - destruct (Qlt_le_dec (timestamp - Player.lastShot p) (Player.fireRate p))
      as [Hlt | Hge].
    + left. split; [exact Hlt | apply shootBullet_closed; exact Hlt].
    + right. split; [exact Hge |].
      destruct (shootBullet_open timestamp r Hge) as [v [Hv [Hlen Hall]]].
      exists v. split; [exact Hv |]. split.
      * intros n Hn. rewrite Hlen. apply trips_of_nat. exact Hn.
      * eapply Forall_impl; [| exact Hall]. simpl. intros b Hb. tauto.
  - intros n Hrate Hcool Hn.
    assert (Hge : Player.fireRate p <= timestamp - Player.lastShot p).
    { rewrite Hrate. exact Hcool. }
    destruct (shootBullet_open timestamp r Hge) as [v [Hv [Hlen _]]].
    fold p in Hv, Hlen. rewrite (trips_of_nat _ _ Hn) in Hlen.
    rewrite Hv. split; [| split; [| split]].
    + apply shootBullet_closed. simpl. rewrite Hrate. lra.
    + simpl. rewrite length_app, Hlen. reflexivity.
    + match goal with
      | |- context [shootBullet ?t ?r'] =>
          destruct (shootBullet_open t r') as [w [Hw [Hlw _]]]
      end.
      { simpl. rewrite Hrate. lra. }
      rewrite Hw. simpl in *. rewrite (trips_of_nat _ _ Hn) in Hlw.
      rewrite !length_app, Hlen, Hlw. reflexivity.
    + match goal with
      | |- context [shootBullet ?t ?r'] =>
          destruct (shootBullet_open t r') as [w [Hw _]]
      end.
      { simpl. rewrite Hrate. lra. }
      rewrite Hw. reflexivity.
Qed.

(** The default player, with the cooldown elapsed at 1000 ms: a volley of
    one bullet; one volley for two calls 150 ms apart, two volleys for two
    calls 250 ms apart. *)
Lemma shootBullet_cadence_default :
  Player.fireRate (player initialRefs) == 200 /\
  200 <= 1000 - Player.lastShot (player initialRefs) /\
  Player.bulletCount (player initialRefs) == of_nat 1 /\
  List.length (bullets (shootBullet 1000 initialRefs)) = 1%nat /\
  List.length
    (bullets (shootBullet (1000 + 150) (shootBullet 1000 initialRefs)))
  = 1%nat /\
  List.length
    (bullets (shootBullet (1000 + 250) (shootBullet 1000 initialRefs)))
  = 2%nat.
Proof.
  assert (H1 : Player.fireRate (player initialRefs) == 200) by reflexivity.
  assert (H2 : 200 <= 1000 - Player.lastShot (player initialRefs))
    by (vm_compute; discriminate).
  assert (H3 : Player.bulletCount (player initialRefs) == of_nat 1)
    by reflexivity.
  destruct (shootBullet_cadence initialRefs 1000) as [Hgate H].
  destruct (H 1%nat H1 H2 H3) as [Hsame [_ [Htwo _]]].
  assert (Hone : List.length (bullets (shootBullet 1000 initialRefs)) = 1%nat).
  { destruct Hgate as [[Hlt _] | [_ (v & Hv & Hlen & _)]].
    - exfalso. revert Hlt. apply Qle_not_lt. rewrite H1. exact H2.
    - rewrite Hv. cbn. apply (Hlen 1%nat H3). }
  split; [exact H1 |]. split; [exact H2 |]. split; [exact H3 |].
  split; [exact Hone |].
  split; [rewrite Hsame; exact Hone | exact Htwo].
Defined.

(** ** Power-ups *)

(** Case analysis on every [Qmin] and [Qmax] of the goal, then linear
    arithmetic. *)
Ltac q_minmax :=
  intros; unfold Math_min, Math_max in *;
  repeat match goal with
         | H : context [Qmin _ _] |- _ => revert H
         | H : context [Qmax _ _] |- _ => revert H
         end;
  repeat match goal with
         | |- context [Qmin ?a ?b] =>
             generalize (Q.min_spec a b); generalize (Qmin a b)
         | |- context [Qmax ?a ?b] =>
             generalize (Q.max_spec a b); generalize (Qmax a b)
         end;
  intros;
  repeat match goal with
         | H : _ \/ _ |- _ => destruct H
         | H : _ /\ _ |- _ => destruct H
         end;
  lra.

Lemma of_nat_S (n : nat) : of_nat (S n) == of_nat n + 1.
Proof.
  unfold of_nat. rewrite Nat2Z.inj_succ. unfold Z.succ.
  rewrite inject_Z_plus. reflexivity.
Qed.

Lemma of_nat_nonneg (n : nat) : 0 <= of_nat n.
Proof.
  unfold of_nat. change 0 with (inject_Z 0). rewrite <- Zle_Qle. lia.
Qed.

Lemma count_after (n : nat) :
  Player.bulletCount (Nat.iter n (applyPowerUp count) initialPlayer)
  == Qmin 5 (1 + of_nat n).
Proof.
  induction n as [| n IH].
  - reflexivity.
  - simpl Nat.iter. simpl Player.bulletCount.
    generalize (of_nat_S n) (of_nat_nonneg n). revert IH.
    generalize (of_nat (S n)) (of_nat n)
               (Player.bulletCount
                  (Nat.iter n (applyPowerUp count) initialPlayer)).
    intros. q_minmax.
Qed.

Lemma rate_after (n : nat) :
  Player.fireRate (Nat.iter n (applyPowerUp rate) initialPlayer)
  == Qmax 50 (200 - 30 * of_nat n).
Proof.
  induction n as [| n IH].
  - reflexivity.
  - simpl Nat.iter. simpl Player.fireRate.
    generalize (of_nat_S n) (of_nat_nonneg n). revert IH.
    generalize (of_nat (S n)) (of_nat n)
               (Player.fireRate
                  (Nat.iter n (applyPowerUp rate) initialPlayer)).
    intros. q_minmax.
Qed.

Lemma size_after (n : nat) :
  Player.bulletSize (Nat.iter n (applyPowerUp size) initialPlayer)
  == Qmin 2 (1 + 0.3 * of_nat n).
Proof.
  induction n as [| n IH].
  - reflexivity.
  - simpl Nat.iter. simpl Player.bulletSize.
    generalize (of_nat_S n) (of_nat_nonneg n). revert IH.
    generalize (of_nat (S n)) (of_nat n)
               (Player.bulletSize
                  (Nat.iter n (applyPowerUp size) initialPlayer)).
    intros. q_minmax.
Qed.

Lemma of_nat_add (k n : nat) : of_nat (k + n) == of_nat k + of_nat n.
Proof.
  unfold of_nat. rewrite Nat2Z.inj_add, inject_Z_plus. reflexivity.
Qed.

Lemma powerUpStep_pickup (powerUp : PowerUp.t) (s : Sim) :
  picksUp (player (refs s))
          (PowerUp.set_y (PowerUp.y powerUp + PowerUp.speed powerUp) powerUp)
  = true ->
  powerUpStep powerUp s =
    (None,
     on_refs (set_player
                (applyPowerUp (PowerUp.type powerUp) (player (refs s)))) s).
Proof. intro H. unfold powerUpStep. rewrite H. reflexivity. Qed.

(** C6: a picked power-up sets [bulletSize] to min(2, bulletSize + 0.3),
    [fireRate] to max(50, fireRate - 30) or [bulletCount] to
    min(5, bulletCount + 1), according to its type.  From the default
    player, [n] count pickups give min(5, 1 + n) bullets, never more than
    5 and exactly 5 after 10; five or more rate pickups give a fire rate
    of 50; four or more size pickups give a bullet size of 2; at its cap a
    value is left where it is. *)
Theorem powerUp_caps :
  (forall p, Player.bulletSize (applyPowerUp size p)
             = Math_min 2 (Player.bulletSize p + 0.3)) /\
  (forall p, Player.fireRate (applyPowerUp rate p)
             = Math_max 50 (Player.fireRate p - 30)) /\
  (forall p, Player.bulletCount (applyPowerUp count p)
             = Math_min 5 (Player.bulletCount p + 1)) /\
  (forall powerUp s,
      picksUp (player (refs s))
              (PowerUp.set_y (PowerUp.y powerUp + PowerUp.speed powerUp)
                             powerUp) = true ->
      powerUpStep powerUp s =
        (None,
         on_refs (set_player
                    (applyPowerUp (PowerUp.type powerUp) (player (refs s))))
                 s)) /\
  (forall n, Player.bulletCount
               (Nat.iter n (applyPowerUp count) initialPlayer)
             == Qmin 5 (1 + of_nat n)) /\
  (forall n, Player.bulletCount
               (Nat.iter n (applyPowerUp count) initialPlayer) <= 5) /\
  Player.bulletCount (Nat.iter 10 (applyPowerUp count) initialPlayer) == 5 /\
  (forall n, 50 <= Player.fireRate
                     (Nat.iter n (applyPowerUp rate) initialPlayer)) /\
  (forall n, Player.fireRate
               (Nat.iter (5 + n) (applyPowerUp rate) initialPlayer) == 50) /\
  (forall n, Player.bulletSize
               (Nat.iter n (applyPowerUp size) initialPlayer) <= 2) /\
  (forall n, Player.bulletSize
               (Nat.iter (4 + n) (applyPowerUp size) initialPlayer) == 2) /\
  (forall p, Player.bulletCount p == 5 ->
             Player.bulletCount (applyPowerUp count p) == 5) /\
  (forall p, Player.fireRate p == 50 ->
             Player.fireRate (applyPowerUp rate p) == 50) /\
  (forall p, Player.bulletSize p == 2 ->
             Player.bulletSize (applyPowerUp size p) == 2).
Proof.
  split; [reflexivity |]. split; [reflexivity |]. split; [reflexivity |].
  split; [exact powerUpStep_pickup |].
  split; [exact count_after |].
  split; [intro n; rewrite count_after; apply Q.le_min_l |].
  split; [reflexivity |].
  split; [intro n; rewrite rate_after; apply Q.le_max_l |].
  split.
  { intro n. rewrite rate_after.
    generalize (of_nat_add 5 n) (of_nat_nonneg n).
    change (of_nat 5) with 5.
    generalize (of_nat (5 + n)) (of_nat n). intros. q_minmax. }
  split; [intro n; rewrite size_after; apply Q.le_min_l |].
  split.
  { intro n. rewrite size_after.
    generalize (of_nat_add 4 n) (of_nat_nonneg n).
    change (of_nat 4) with 4.
    generalize (of_nat (4 + n)) (of_nat n). intros. q_minmax. }
  split; [| split]; intros p H; simpl; revert H;
    [ generalize (Player.bulletCount p)
    | generalize (Player.fireRate p)
    | generalize (Player.bulletSize p) ];
    intros; q_minmax.
Qed.

(** The default player with a count power-up on it, and each value at its
    cap. *)
Lemma powerUp_caps_default :
  powerUpStep (PowerUp.mk 275 690 40 40 2 count) (mkSim initialRefs []) =
    (None, mkSim (set_player (applyPowerUp count initialPlayer) initialRefs) [])
  /\ Player.bulletCount
       (applyPowerUp count (Nat.iter 10 (applyPowerUp count) initialPlayer))
     == 5
  /\ Player.fireRate
       (applyPowerUp rate (Nat.iter 5 (applyPowerUp rate) initialPlayer))
     == 50
  /\ Player.bulletSize
       (applyPowerUp size (Nat.iter 4 (applyPowerUp size) initialPlayer))
     == 2.
Proof.
  destruct powerUp_caps
    as (_ & _ & _ & Hpick & _ & _ & _ & _ & _ & _ & _ & Hc & Hr & Hs).
  split; [| split; [| split]].
  - apply (Hpick (PowerUp.mk 275 690 40 40 2 count) (mkSim initialRefs [])).
    reflexivity.
  - apply Hc. reflexivity.
  - apply Hr. reflexivity.
  - apply Hs. reflexivity.
Defined.

(** ** What the helpers leave alone *)

Lemma Math_random_range (tape : nat -> Z) (r : Refs) :
  0 <= fst (Math_random tape r) < 1.
Proof.
  unfold Math_random. simpl.
  pose proof (Z.mod_pos_bound (tape (cursor r)) (Zpos RESOLUTION) eq_refl)
    as [Hlo Hhi].
  unfold Qle, Qlt. simpl. lia.
Qed.

Lemma spawnPowerUp_frame (tape : nat -> Z) (x y : number) (r : Refs) :
  player (spawnPowerUp tape x y r) = player r /\
  bullets (spawnPowerUp tape x y r) = bullets r /\
  enemies (spawnPowerUp tape x y r) = enemies r /\
  explosions (spawnPowerUp tape x y r) = explosions r.
Proof.
  unfold spawnPowerUp, Math_random. simpl.
  destruct (gtb _ 0.3); simpl; auto.
Qed.

Lemma spawnEnemy_frame (tape : nat -> Z) (r : Refs) :
  player (spawnEnemy tape r) = player r /\
  bullets (spawnEnemy tape r) = bullets r /\
  powerUps (spawnEnemy tape r) = powerUps r /\
  explosions (spawnEnemy tape r) = explosions r.
Proof.
  unfold spawnEnemy, Math_random. simpl.
  destruct (ltb _ 0.6); [| destruct (ltb _ 0.9)]; simpl; auto.
Qed.

Lemma maybeSpawnEnemy_player (tape : nat -> Z) (score : number) (r : Refs) :
  player (maybeSpawnEnemy tape score r) = player r.
Proof.
  unfold maybeSpawnEnemy.
  destruct (Math_random tape r) as [roll r1] eqn:E.
  assert (Hp : player r1 = player r).
  { unfold Math_random in E. injection E as _ <-. reflexivity. }
  destruct (ltb roll _); [| exact Hp].
  rewrite <- Hp. apply spawnEnemy_frame.
Qed.

Lemma movePlayer_health (keys : string -> bool) (p : Player.t) :
  Player.health (movePlayer keys p) = Player.health p /\
  Player.maxHealth (movePlayer keys p) = Player.maxHealth p.
Proof.
  unfold movePlayer.
  repeat match goal with
         | |- context [held ?k ?a ?b] => destruct (held k a b)
         end;
    split; reflexivity.
Qed.

Lemma shootBullet_health (timestamp : number) (r : Refs) :
  Player.health (player (shootBullet timestamp r)) = Player.health (player r) /\
  Player.maxHealth (player (shootBullet timestamp r))
  = Player.maxHealth (player r).
Proof.
  unfold shootBullet. destruct (ltb _ _); split; reflexivity.
Qed.

Lemma applyPowerUp_health (type : PowerUpType) (p : Player.t) :
  Player.health (applyPowerUp type p) = Player.health p /\
  Player.maxHealth (applyPowerUp type p) = Player.maxHealth p.
Proof. destruct type; split; reflexivity. Qed.

(** ** Passes only lower the player's health and only queue health and
    score updates *)

Lemma advances_refl (s : Sim) : advances s s.
Proof.
  split; [reflexivity |]. split; [apply Qle_refl |].
  exists []. rewrite app_nil_r. auto.
Qed.

Lemma advances_trans (a b c : Sim) :
  advances a b -> advances b c -> advances a c.
Proof.
  intros (Hm1 & Hh1 & q1 & Hq1 & Hb1) (Hm2 & Hh2 & q2 & Hq2 & Hb2).
  split; [congruence |]. split; [eapply Qle_trans; eassumption |].
  exists (q1 ++ q2). rewrite Hq2, Hq1, app_assoc, forallb_app, Hb1, Hb2. auto.
Qed.

Lemma advances_same (s s' : Sim) :
  player (refs s') = player (refs s) -> queue s' = queue s -> advances s s'.
Proof.
  intros Hp Hq. unfold advances. rewrite Hp, Hq.
  split; [reflexivity |]. split; [apply Qle_refl |].
  exists []. rewrite app_nil_r. auto.
Qed.

Lemma filter_mut_preorder {A S : Type} (R : S -> S -> Prop)
      (f : A -> S -> option A * S) :
  (forall s, R s s) ->
  (forall a b c, R a b -> R b c -> R a c) ->
  (forall a s, R s (snd (f a s))) ->
  forall l s, R s (snd (filter_mut f l s)).
Proof.
  intros Hrefl Htrans Hstep l.
  induction l as [| a l IH]; intro s; simpl.
  - apply Hrefl.
  - specialize (Hstep a s). destruct (f a s) as [kept s1]. simpl in Hstep.
    specialize (IH s1). destruct (filter_mut f l s1) as [rest s2].
    simpl in *. eapply Htrans; eassumption.
Qed.

Lemma enemyStep_advances (tape : nat -> Z) (enemy : Enemy.t) (s : Sim) :
  advances s (snd (enemyStep tape enemy s)).
Proof.
  unfold enemyStep. destruct (hitsPlayer _ _).
  - simpl. unfold advances. simpl.
    destruct (spawnPowerUp_frame tape
                (Enemy.x enemy + Enemy.width enemy / 2)
                (Enemy.y enemy + Enemy.speed enemy + Enemy.height enemy / 2)
                (set_explosions
                   (explosions (refs s) ++
                    [Explosion.mk
                       (Enemy.x enemy + Enemy.width enemy / 2)
                       (Enemy.y enemy + Enemy.speed enemy
                        + Enemy.height enemy / 2) 0 50 1])
                   (set_player
                      (Player.set_health
                         (Player.health (player (refs s)) - 20)
                         (player (refs s))) (refs s))))
      as [Hp _].
    rewrite Hp. simpl. split; [reflexivity |]. split; [lra |].
    eexists. split; [reflexivity | reflexivity].
  - simpl. apply advances_refl.
Qed.

Lemma powerUpStep_advances (powerUp : PowerUp.t) (s : Sim) :
  advances s (snd (powerUpStep powerUp s)).
Proof.
  unfold powerUpStep. destruct (picksUp _ _); simpl.
  - unfold advances. simpl.
    destruct (applyPowerUp_health (PowerUp.type powerUp) (player (refs s)))
      as [-> ->].
    split; [reflexivity |]. split; [apply Qle_refl |].
    exists []. rewrite app_nil_r. auto.
  - apply advances_refl.
Qed.

Lemma hitStep_advances (tape : nat -> Z) (bullet : Bullet.t)
      (enemy : Enemy.t) (st : bool * Sim) :
  advances (snd st) (snd (snd (hitStep tape bullet enemy st))).
Proof.
  destruct st as [hit s]. unfold hitStep.
  destruct (hitsEnemy _ _); [| apply advances_refl].
  simpl. destruct (leb _ 0); [| apply advances_refl].
  simpl. unfold advances. simpl.
  match goal with
  | |- context [spawnPowerUp tape ?x ?y ?r] =>
      destruct (spawnPowerUp_frame tape x y r) as [Hp _]
  end.
  rewrite Hp. simpl. split; [reflexivity |]. split; [apply Qle_refl |].
  eexists. split; reflexivity.
Qed.

Lemma bulletStep_advances (tape : nat -> Z) (bullet : Bullet.t) (s : Sim) :
  advances s (snd (bulletStep tape bullet s)).
Proof.
  unfold bulletStep.
  pose proof
       (filter_mut_preorder
          (fun a b : bool * Sim => advances (snd a) (snd b))
          (hitStep tape bullet)
          (fun st => advances_refl (snd st))
          (fun a b c => advances_trans (snd a) (snd b) (snd c))
          (hitStep_advances tape bullet)
          (enemies (refs s)) (false, s)) as H.
  destruct (filter_mut _ _ _) as [survivors [hit s1]]. simpl in *.
  eapply advances_trans; [exact H |].
  apply advances_same; reflexivity.
Qed.

Lemma pass_advances {A : Type} (f : A -> Sim -> option A * Sim)
      (l : list A) (set : list A -> Refs -> Refs) (s : Sim) :
  (forall a s, advances s (snd (f a s))) ->
  (forall v r, player (set v r) = player r) ->
  advances s (let '(l', s') := filter_mut f l s in on_refs (set l') s').
Proof.
  intros Hstep Hset.
  pose proof (filter_mut_preorder advances f advances_refl advances_trans
                                  Hstep l s) as H.
  destruct (filter_mut f l s) as [l' s']. simpl in H.
  eapply advances_trans; [exact H |].
  apply advances_same; [apply Hset | reflexivity].
Qed.

Lemma gameOverCheck_cases (score : number) (s : Sim) :
  (0 < Player.health (player (refs s)) /\ gameOverCheck score s = s) \/
  (Player.health (player (refs s)) <= 0 /\
   gameOverCheck score s =
     mkSim (refs s) (queue s ++ [SetGameState gameover; PostHighScore score])).
Proof.
  unfold gameOverCheck.
  destruct (leb (Player.health (player (refs s))) 0) eqn:E.
  - right. split; [apply leb_le; exact E |].
    unfold emit. simpl. rewrite <- app_assoc. reflexivity.
  - left. split; [apply leb_gt; exact E | reflexivity].
Qed.

Lemma on_refs_advances (f : Refs -> Refs) (s : Sim) :
  Player.health (player (f (refs s))) = Player.health (player (refs s)) /\
  Player.maxHealth (player (f (refs s))) = Player.maxHealth (player (refs s)) ->
  advances s (on_refs f s).
Proof.
  intros [Hh Hm]. unfold advances. simpl. rewrite Hh, Hm.
  split; [reflexivity |]. split; [apply Qle_refl |].
  exists []. rewrite app_nil_r. auto.
Qed.

Lemma moveBullet_advances (bullet : Bullet.t) (s : Sim) :
  advances s (snd (moveBullet bullet s)).
Proof. apply advances_refl. Qed.

Lemma explosionStep_advances (explosion : Explosion.t) (s : Sim) :
  advances s (snd (explosionStep explosion s)).
Proof. apply advances_refl. Qed.

(** The passes of a playing tick, up to the terminal check. *)
Lemma updateGame_playing (tape : nat -> Z) (timestamp : number)
      (keys : string -> bool) (h : Hooks) (r : Refs) :
  gameState h = playing ->
  exists s,
    updateGame tape timestamp keys h r = gameOverCheck (score h) s /\
    advances (mkSim r []) s.
Proof.
  intro Hplay. unfold updateGame. rewrite Hplay.
  eexists. split; [reflexivity |].
  unfold explosionsPass, bulletsPass, powerUpsPass, enemiesPass, bulletsMove.
  eapply advances_trans;
    [| apply pass_advances; [exact explosionStep_advances | reflexivity]].
  eapply advances_trans;
    [| apply pass_advances; [exact (bulletStep_advances tape) | reflexivity]].
  eapply advances_trans;
    [| apply pass_advances; [exact powerUpStep_advances | reflexivity]].
  eapply advances_trans;
    [| apply pass_advances; [exact (enemyStep_advances tape) | reflexivity]].
  eapply advances_trans;
    [| apply on_refs_advances; rewrite maybeSpawnEnemy_player; auto].
  eapply advances_trans;
    [| apply pass_advances; [exact moveBullet_advances | reflexivity]].
  eapply advances_trans;
    [| apply on_refs_advances; apply shootBullet_health].
  apply on_refs_advances. simpl. apply movePlayer_health.
Qed.

(** ** Frames *)

Lemma commit_benign (q : list Update) :
  forallb benign q = true ->
  forall h sent,
    gameState (fst (fold_left apply_update q (h, sent))) = gameState h /\
    snd (fold_left apply_update q (h, sent)) = sent.
Proof.
  induction q as [| u q IH]; intros Hq h sent; simpl.
  - auto.
  - simpl in Hq. apply andb_true_iff in Hq. destruct Hq as [Hu Hq].
    destruct u; try discriminate; simpl;
      match goal with
      | |- context [fold_left apply_update q (?h', sent)] =>
          destruct (IH Hq h' sent) as [H1 H2]
      end; simpl in H1; auto.
Qed.

(** A frame outside of play changes nothing. *)
Lemma tick_idle (tape : nat -> Z) (timestamp : number)
      (keys : string -> bool) (g : Game) :
  gameState (hooks g) <> playing -> tick tape timestamp keys g = g.
Proof.
  intro H. unfold tick, updateGame.
  destruct g as [h w sent]. simpl in *.
  destruct (gameState h); try reflexivity. contradiction.
Qed.

(** A frame of play: the player's health does not grow; the game goes on
    with nothing posted when the health is still positive at the end of the
    frame, and is over, with one score posted, when it is not. *)
Lemma tick_playing (tape : nat -> Z) (timestamp : number)
      (keys : string -> bool) (g : Game) :
  gameState (hooks g) = playing ->
  let g' := tick tape timestamp keys g in
  Player.maxHealth (player (world g')) = Player.maxHealth (player (world g)) /\
  Player.health (player (world g')) <= Player.health (player (world g)) /\
  ((0 < Player.health (player (world g')) /\
    gameState (hooks g') = playing /\ posted g' = posted g)
   \/
   (Player.health (player (world g')) <= 0 /\
    gameState (hooks g') = gameover /\
    posted g' = posted g ++ [score (hooks g)])).
Proof.
  intros Hplay g'. subst g'. unfold tick.
  destruct (updateGame_playing tape timestamp keys (hooks g) (world g) Hplay)
    as [s [E (Hm & Hh & q & Hq & Hb)]].
  rewrite E. simpl in Hm, Hh, Hq.
  destruct (commit_benign q Hb (hooks g) (posted g)) as [Hgs Hsent].
  destruct (gameOverCheck_cases (score (hooks g)) s) as [[Hpos ->] | [Hneg ->]];
    unfold commit; simpl; rewrite Hq.
  - destruct (fold_left apply_update q (hooks g, posted g)) as [h' sent'].
    simpl in *. split; [exact Hm |]. split; [exact Hh |].
    left. split; [exact Hpos |]. split; [congruence | exact Hsent].
  - rewrite fold_left_app.
    destruct (fold_left apply_update q (hooks g, posted g)) as [h' sent'].
    simpl in *. split; [exact Hm |]. split; [exact Hh |].
    right. split; [exact Hneg |]. split; [reflexivity | congruence].
Qed.

(** ** The player's health along a run *)


Lemma healthy_step (tape : nat -> Z) (g : Game) (e : Event) :
  healthy g -> healthy (step tape g e).
Proof.
  intros (Hm & Hle & Hpos). destruct e as [| timestamp keys]; simpl.
  - unfold healthy, startGame, commit. simpl.
    split; [reflexivity |]. split; [apply Qle_refl | intros _; reflexivity].
  - destruct (gameState (hooks g)) eqn:Hs;
      try (rewrite tick_idle by congruence;
           split; [exact Hm |]; split; [exact Hle |]; rewrite Hs; discriminate).
    destruct (tick_playing tape timestamp keys g Hs)
      as (Hm' & Hle' & [(Hp & _ & _) | (_ & Hover & _)]).
    + split; [congruence |]. split; [| intros _; exact Hp].
      rewrite Hm'. eapply Qle_trans; eassumption.
    + split; [congruence |]. split.
      * rewrite Hm'. eapply Qle_trans; eassumption.
      * rewrite Hover. discriminate.
Qed.

Lemma healthy_from (tape : nat -> Z) (events : list Event) (g : Game) :
  healthy g -> healthy (fold_left (step tape) events g).
Proof.
  revert g. induction events as [| e events IH]; intros g H; simpl.
  - exact H.
  - apply IH, healthy_step, H.
Qed.

(** C2 (amended): along every run of the game the player's maximal health
    is 100, the health never exceeds it, and it is positive whenever the
    game is in play, in particular at the start of every simulated frame.
    It is not clamped at 0. *)
Theorem health_bounds (tape : nat -> Z) (events : list Event) :
  Player.maxHealth (player (world (run tape events))) = 100 /\
  Player.health (player (world (run tape events)))
  <= Player.maxHealth (player (world (run tape events))) /\
  (gameState (hooks (run tape events)) = playing ->
   0 < Player.health (player (world (run tape events)))).
Proof.
  apply (healthy_from tape events initialGame).
  split; [reflexivity |]. split; [apply Qle_refl | discriminate].
Qed.

(** The run up to the frame before the crash is in play, with positive
    health. *)
Lemma health_bounds_in_play :
  gameState (hooks (run tape_crash (approach ++ frames noKeys 116 16)))
  = playing /\
  0 < Player.health
        (player (world (run tape_crash (approach ++ frames noKeys 116 16)))).
Proof.
  assert (H : gameState
                (hooks (run tape_crash (approach ++ frames noKeys 116 16)))
              = playing)
    by (vm_compute; reflexivity).
  pose proof (health_bounds tape_crash (approach ++ frames noKeys 116 16))
    as (_ & _ & Hpos).
  exact (conj H (Hpos H)).
Defined.

(** The run [after_crash]: its last frame starts in play, the player at
    (0, 10) with health 100 and six large enemies (80 by 80) at x just
    below 52; the player steps right to x = 6 and so into all six, and the
    frame ends with a health of -20, which is also the value handed to the
    display. *)
Lemma health_below_zero :
  gameState (hooks before_crash) = playing /\
  bearing before_crash = (0, 10, 100) /\
  map sighting (enemies (world before_crash))
  = [(51%Z, -64, 80, large); (51%Z, -65, 80, large); (51%Z, -66, 80, large);
     (51%Z, -67, 80, large); (51%Z, -68, 80, large); (51%Z, -69, 80, large)] /\
  bearing after_crash = (6, 10, -20) /\
  Player.health (player (world after_crash)) = -20 /\
  health (hooks after_crash) = -20 /\
  ~ 0 <= Player.health (player (world after_crash)).
Proof.
  assert (H : Player.health (player (world after_crash)) = -20)
    by (vm_compute; reflexivity).
  repeat split; try (vm_compute; reflexivity); try exact H.
  rewrite H. intro Hle. vm_compute in Hle. apply Hle. reflexivity.
Qed.

(** ** The bullet pass *)

Lemma filter_mut_cons {A S : Type} (f : A -> S -> option A * S)
      (a : A) (l : list A) (s : S) :
  filter_mut f (a :: l) s =
    let '(kept, s1) := f a s in
    let '(rest, s2) := filter_mut f l s1 in
    (match kept with Some a' => a' :: rest | None => rest end, s2).
Proof. reflexivity. Qed.

Lemma hitStep_pass (tape : nat -> Z) (bullet : Bullet.t) (es : list Enemy.t) :
  forall (hit : bool) (s : Sim),
    let result := filter_mut (hitStep tape bullet) es (hit, s) in
    fst result =
      map (struck bullet) (filter (fun e => negb (destroyed bullet e)) es) /\
    fst (snd result) = hit || existsb (hitsEnemy bullet) es /\
    player (refs (snd (snd result))) = player (refs s) /\
    bullets (refs (snd (snd result))) = bullets (refs s).
Proof.
  induction es as [| e es IH]; intros hit s result; subst result.
  - simpl. rewrite orb_false_r. auto.
  - rewrite filter_mut_cons.
    destruct (hitStep tape bullet e (hit, s)) as [kept [h1 s1]] eqn:E.
    specialize (IH h1 s1).
    destruct (filter_mut (hitStep tape bullet) es (h1, s1))
      as [rest [hit' s2]].
    cbn [fst snd] in IH |- *. destruct IH as (-> & -> & Hp & Hb).
    cbn [filter map existsb].
    assert (Hd : destroyed bullet e =
                 hitsEnemy bullet e
                 && leb (Enemy.health e - Bullet.damage bullet) 0)
      by reflexivity.
    assert (Hs : struck bullet e =
                 if hitsEnemy bullet e
                 then Enemy.set_health
                        (Enemy.health e - Bullet.damage bullet) e
                 else e)
      by reflexivity.
    unfold hitStep in E.
    destruct (hitsEnemy bullet e) eqn:Hhit.
    + cbn [Enemy.health Enemy.set_health] in E.
      destruct (leb (Enemy.health e - Bullet.damage bullet) 0) eqn:Hdead;
        injection E as <- <- <-; rewrite Hd; cbn [andb negb map];
        rewrite Hp, Hb.
      * cbn [emit on_refs refs].
        match goal with
        | |- context [spawnPowerUp tape ?x ?y ?r] =>
            destruct (spawnPowerUp_frame tape x y r) as (-> & -> & _)
        end.
        rewrite orb_true_r. auto.
      * rewrite Hs, orb_true_r. auto.
    + injection E as <- <- <-. rewrite Hd. cbn [andb negb map].
      rewrite Hs, Hp, Hb, orb_false_l. auto.
Qed.

(** C1 (amended): in the bullet pass a bullet takes its damage from the
    health of every enemy that it intersects, in collection order, and not
    only of the first; the enemies whose health falls to 0 or below are
    removed; the bullet is removed exactly when it intersects at least one
    enemy; an enemy that it does not intersect is left as it is. *)
Theorem bullet_strikes_every_overlap
        (tape : nat -> Z) (bullet : Bullet.t) (s : Sim) :
  fst (bulletStep tape bullet s) =
    (if existsb (hitsEnemy bullet) (enemies (refs s))
     then None else Some bullet) /\
  enemies (refs (snd (bulletStep tape bullet s))) =
    map (struck bullet)
        (filter (fun e => negb (destroyed bullet e)) (enemies (refs s))) /\
  (forall e,
      Enemy.health (struck bullet e) =
        if hitsEnemy bullet e
        then Enemy.health e - Bullet.damage bullet
        else Enemy.health e) /\
  (forall e,
      destroyed bullet e =
        hitsEnemy bullet e && leb (Enemy.health (struck bullet e)) 0) /\
  (forall e, hitsEnemy bullet e = false ->
             struck bullet e = e /\ destroyed bullet e = false).
Proof.
  unfold bulletStep.
  pose proof (hitStep_pass tape bullet (enemies (refs s)) false s) as H.
  destruct (filter_mut _ _ _) as [survivors [hit s1]].
  simpl in H. destruct H as (-> & -> & _ & _). simpl.
  split; [destruct (existsb _ _); reflexivity |].
  split; [reflexivity |].
  split; [| split].
  - intro e. unfold struck. destruct (hitsEnemy bullet e); reflexivity.
  - intro e. unfold destroyed, struck.
    destruct (hitsEnemy bullet e); reflexivity.
  - intros e He. unfold struck, destroyed. rewrite He. auto.
Qed.

(** An enemy clear of the bullet, between two that it overlaps. *)
Lemma bullet_strikes_every_overlap_sample :
  hitsEnemy (bulletAt 0 0 10 10) (enemyAt 100 100 10 10) = false /\
  struck (bulletAt 0 0 10 10) (enemyAt 100 100 10 10)
  = enemyAt 100 100 10 10 /\
  destroyed (bulletAt 0 0 10 10) (enemyAt 100 100 10 10) = false /\
  map Enemy.health
      (enemies
         (refs
            (snd (bulletStep (tape_of []) (bulletAt 0 0 10 10)
                    (mkSim (set_enemies [enemyAt 5 5 10 10;
                                         enemyAt 100 100 10 10;
                                         enemyAt 2 2 10 10] initialRefs)
                           [])))))
  = [20 - 10; 20; 20 - 10].
Proof.
  assert (Hfar : hitsEnemy (bulletAt 0 0 10 10) (enemyAt 100 100 10 10)
                 = false) by reflexivity.
  pose proof (bullet_strikes_every_overlap (tape_of []) (bulletAt 0 0 10 10)
                (mkSim (set_enemies [enemyAt 5 5 10 10;
                                     enemyAt 100 100 10 10;
                                     enemyAt 2 2 10 10] initialRefs) []))
    as (_ & Hes & _ & _ & Hclear).
  destruct (Hclear (enemyAt 100 100 10 10) Hfar) as [H1 H2].
  split; [exact Hfar |]. split; [exact H1 |]. split; [exact H2 |].
  rewrite Hes. reflexivity.
Defined.

(** One bullet over two enemies: both lose its damage.  First in the pass
    alone, for the rectangle (0,0,10,10) over (5,5,10,10) and (2,2,10,10);
    then in the run [after_pierce], whose frame at 1200 ms starts with no
    bullet and two small enemies of health 20 above the player, fires one
    bullet, and ends with both enemies at health 10. *)
Lemma one_bullet_wounds_two_enemies :
  map Enemy.health
      (enemies
         (refs
            (bulletsPass (tape_of [])
               (mkSim (set_bullets [bulletAt 0 0 10 10]
                         (set_enemies [enemyAt 5 5 10 10; enemyAt 2 2 10 10]
                                      initialRefs))
                      []))))
  = [10; 10] /\
  bearing before_pierce = (0, 10, 100) /\
  bullets (world before_pierce) = [] /\
  map sighting (enemies (world before_pierce))
  = [(19%Z, -34, 20, small); (19%Z, -36, 20, small)] /\
  List.length (bullets (shootBullet 1200 (world before_pierce))) = 1%nat /\
  map sighting (enemies (world after_pierce))
  = [(19%Z, -32, 10, small); (19%Z, -34, 10, small)] /\
  bullets (world after_pierce) = [].
Proof. repeat split; vm_compute; reflexivity. Qed.

(** ** The enemy pass *)







(** One frame of a started game with that enemy on the player: the health
    goes from 100 to 80, the enemy is gone, one explosion of maximal radius
    50 is there, and the score is still 0. *)
Example collision_frame :
  let g := startGame initialGame in
  let g' :=
    tick (tape_of []) 16 noKeys
         (mkGame (hooks g)
                 (set_enemies [Enemy.mk 275 699 80 80 1 80 80 large] (world g))
                 (posted g)) in
  Player.health (player (world g')) = 80 /\
  health (hooks g') = 80 /\
  enemies (world g') = [] /\
  map Explosion.maxRadius (explosions (world g')) = [50] /\
  score (hooks g') = 0 /\
  gameState (hooks g') = playing.
Proof. vm_compute. repeat split. Qed.

(** ** Spawning a power-up *)

Lemma Qfloor_between (x : Q) (z : Z) :
  inject_Z z <= x -> x < inject_Z z + 1 -> Qfloor x = z.
Proof.
  intros Hlo Hhi.
  pose proof (Qfloor_le x) as Hf1. pose proof (Qlt_floor x) as Hf2.
  rewrite inject_Z_plus in Hf2. change (inject_Z 1) with 1 in Hf2.
  assert (H1 : inject_Z (Qfloor x) < inject_Z z + 1) by lra.
  assert (H2 : inject_Z z < inject_Z (Qfloor x) + 1) by lra.
  change 1 with (inject_Z 1) in H1, H2.
  rewrite <- inject_Z_plus, <- Zlt_Qlt in H1, H2. lia.
Qed.

(** The variant drawn by [types[Math.floor(pick * types.length)]], in
    exact arithmetic: one third of the unit interval for each, and never
    out of range. *)
Lemma types_pick (pick : number) :
  0 <= pick < 1 ->
  nth (Z.to_nat (Math_floor (pick * of_nat (List.length types)))) types count
  = (if ltb pick (1 # 3) then size
     else if ltb pick (2 # 3) then rate else count) /\
  (Z.to_nat (Math_floor (pick * of_nat (List.length types))%Q)
   < List.length types)%nat.
Proof.
  intros [Hlo Hhi]. unfold Math_floor.
  change (of_nat (List.length types)) with 3.
  destruct (ltb pick (1 # 3)) eqn:E1.
  - apply ltb_lt in E1.
    rewrite (Qfloor_between (pick * 3) 0);
      [split; [reflexivity | simpl; lia]
      | change (inject_Z 0) with 0; lra
      | change (inject_Z 0) with 0; lra].
  - apply ltb_ge in E1. destruct (ltb pick (2 # 3)) eqn:E2.
    + apply ltb_lt in E2.
      rewrite (Qfloor_between (pick * 3) 1);
        [split; [reflexivity | simpl; lia]
        | change (inject_Z 1) with 1; lra
        | change (inject_Z 1) with 1; lra].
    + apply ltb_ge in E2.
      rewrite (Qfloor_between (pick * 3) 2);
        [split; [reflexivity | simpl; lia]
        | change (inject_Z 2) with 2; lra
        | change (inject_Z 2) with 2; lra].
Qed.

(** C3 (amended): when its roll is at most 0.3, [spawnPowerUp x y] appends
    one 40 by 40 power-up of fall speed 2 whose x is [x - 20] and whose y
    is [y] itself: it is centred on the kill point horizontally, and its
    top edge, not its centre, is at the height of the kill point.  Its
    variant is [types[Math.floor(pick * types.length)]] for the second
    draw [pick], an index that is never out of range: [size] for a draw
    below one third, [rate] from one third on and [count] from two thirds
    on.  The one draw left out, the largest below two thirds, is where the
    doubles of the source round [pick * 3] up to 2 and give [count]
    ([pickIndex_binary64]).  When the roll is above 0.3 nothing is
    appended. *)
Theorem spawnPowerUp_placement (tape : nat -> Z) (x y : number) (r : Refs) :
  (fst (Math_random tape r) <= 0.3 ->
   exists type,
     spawnPowerUp tape x y r =
       set_powerUps (powerUps r ++ [PowerUp.mk (x - 20) y 40 40 2 type])
                    (set_cursor (S (S (cursor r))) r) /\
     type =
       nth (Z.to_nat
              (Math_floor
                 (fst (Math_random tape (snd (Math_random tape r)))
                  * of_nat (List.length types))))
           types count /\
     (0 <= Math_floor
             (fst (Math_random tape (snd (Math_random tape r)))
              * of_nat (List.length types))%Q
      < Z.of_nat (List.length types))%Z /\
     (fst (Math_random tape (snd (Math_random tape r))) < 1 # 3 ->
      type = size) /\
     (1 # 3 <= fst (Math_random tape (snd (Math_random tape r))) ->
      fst (Math_random tape (snd (Math_random tape r))) < below_two_thirds ->
      type = rate) /\
     (2 # 3 <= fst (Math_random tape (snd (Math_random tape r))) ->
      type = count)) /\
  (0.3 < fst (Math_random tape r) ->
   spawnPowerUp tape x y r = set_cursor (S (cursor r)) r) /\
  (forall type,
      PowerUp.x (PowerUp.mk (x - 20) y 40 40 2 type)
      + PowerUp.width (PowerUp.mk (x - 20) y 40 40 2 type) / 2 == x /\
      PowerUp.y (PowerUp.mk (x - 20) y 40 40 2 type) = y /\
      PowerUp.y (PowerUp.mk (x - 20) y 40 40 2 type)
      + PowerUp.height (PowerUp.mk (x - 20) y 40 40 2 type) / 2 == y + 20).
Proof.
  split; [| split].
  - intro Hroll. apply gtb_le in Hroll. unfold spawnPowerUp.
    destruct (Math_random tape r) as [roll r1] eqn:E1. cbn [fst snd] in *.
    rewrite Hroll.
    pose proof (Math_random_range tape r1) as Hrange.
    destruct (Math_random tape r1) as [pick r2] eqn:E2. cbn [fst] in *.
    destruct (types_pick pick Hrange) as [Hpick Hindex].
    pose proof (Qfloor_le (pick * of_nat (List.length types))) as Hfloor.
    eexists. split; [| split; [reflexivity |]].
    { unfold Math_random in E1, E2.
      injection E1 as _ <-. injection E2 as _ <-. reflexivity. }
    split.
    { unfold Math_floor in *. split; [| lia].
      apply (Qfloor_resp_le 0). change (of_nat (List.length types)) with 3.
      lra. }
    rewrite Hpick. unfold below_two_thirds.
    split; [| split].
    + intro H. apply ltb_lt in H. rewrite H. reflexivity.
    + intros H1 H2. apply ltb_ge in H1. rewrite H1.
      assert (H : ltb pick (2 # 3) = true) by (apply ltb_lt; lra).
      rewrite H. reflexivity.
    + intro H.
      assert (H1 : ltb pick (1 # 3) = false) by (apply ltb_ge; lra).
      apply ltb_ge in H. rewrite H1, H. reflexivity.
  - intro Hroll. apply gtb_gt in Hroll. unfold spawnPowerUp.
    destruct (Math_random tape r) as [roll r1] eqn:E1. cbn [fst] in *.
    rewrite Hroll. unfold Math_random in E1. injection E1 as _ <-.
    reflexivity.
  - intro type. cbn. split; [field | split; [reflexivity | field]].
Qed.

(** At the kill point (100, 100): a roll of 0 and a pick of 0 spawn a
    [size] power-up; a roll of one half spawns nothing. *)
Lemma spawnPowerUp_placement_sample :
  fst (Math_random (tape_of [0; 0]%Z) initialRefs) <= 0.3 /\
  spawnPowerUp (tape_of [0; 0]%Z) 100 100 initialRefs =
    set_powerUps [PowerUp.mk (100 - 20) 100 40 40 2 size]
                 (set_cursor 2 initialRefs) /\
  0.3 < fst (Math_random (tape_of []) initialRefs) /\
  spawnPowerUp (tape_of []) 100 100 initialRefs = set_cursor 1 initialRefs.
Proof.
  assert (H : fst (Math_random (tape_of [0; 0]%Z) initialRefs) <= 0.3)
    by (vm_compute; discriminate).
  assert (H' : 0.3 < fst (Math_random (tape_of []) initialRefs))
    by (vm_compute; reflexivity).
  destruct (spawnPowerUp_placement (tape_of [0; 0]%Z) 100 100 initialRefs)
    as [Hspawn _].
  destruct (spawnPowerUp_placement (tape_of []) 100 100 initialRefs)
    as (_ & Hnone & _).
  destruct (Hspawn H) as (type & Hplaced & Htype & _).
  rewrite Htype in Hplaced.
  exact (conj H (conj Hplaced (conj H' (Hnone H')))).
Defined.

(** The power-up spawned for the kill point (100, 100) has its centre at
    height 120. *)
Lemma powerUp_centre_below_kill_point :
  powerUps (spawnPowerUp (tape_of [0; 0]%Z) 100 100 initialRefs)
  = [PowerUp.mk 80 100 40 40 2 size] /\
  PowerUp.y (PowerUp.mk 80 100 40 40 2 size)
  + PowerUp.height (PowerUp.mk 80 100 40 40 2 size) / 2 == 120 /\
  ~ PowerUp.y (PowerUp.mk 80 100 40 40 2 size)
    + PowerUp.height (PowerUp.mk 80 100 40 40 2 size) / 2 == 100.
Proof.
  split; [vm_compute; reflexivity |]. split; [reflexivity |].
  intro H. vm_compute in H. discriminate H.
Qed.

(** ** The end of a game *)

(** C8, at the run [after_last]: the last frame starts in play with a score
    of 0, six large enemies beside the player and a small enemy of health
    10 above it; the player steps into the six while the bullet of that
    frame destroys the small enemy (10 points).  The game is over, the
    score of the finished game is 10, and the one score posted is 0.  A
    further frame changes nothing. *)
Theorem last_kill_not_submitted :
  gameState (hooks before_last) = playing /\
  score (hooks before_last) = 0 /\
  posted before_last = [] /\
  bearing before_last = (0, 10, 100) /\
  map sighting (enemies (world before_last))
  = [(51%Z, -55, 80, large); (51%Z, -56, 80, large); (51%Z, -57, 80, large);
     (51%Z, -58, 80, large); (51%Z, -59, 80, large); (51%Z, -60, 80, large);
     (19%Z, -38, 10, small)] /\
  gameState (hooks after_last) = gameover /\
  enemies (world after_last) = [] /\
  score (hooks after_last) = 10 /\
  posted after_last = [0] /\
  tick tape_last 1610 noKeys after_last = after_last.
Proof.
  split; [vm_compute; reflexivity |]. split; [vm_compute; reflexivity |].
  split; [vm_compute; reflexivity |]. split; [vm_compute; reflexivity |].
  split; [vm_compute; reflexivity |].
  assert (H : gameState (hooks after_last) = gameover)
    by (vm_compute; reflexivity).
  split; [exact H |]. split; [vm_compute; reflexivity |].
  split; [vm_compute; reflexivity |]. split; [vm_compute; reflexivity |].
  apply tick_idle. rewrite H. discriminate.
Qed.

(** ** The high-score route *)

(** [greatest] is the stored maximum. *)
Lemma greatest_max (rows : list Route.GameScore) :
  (Route.greatest rows = None <-> rows = []) /\
  (forall m,
      Route.greatest rows = Some m ->
      In m rows /\ forall row, In row rows -> Route.score row <= Route.score m).
Proof.
  induction rows as [| row rows [IHnone IHsome]]; simpl.
  - split; [tauto | discriminate].
  - destruct (Route.greatest rows) as [m' |] eqn:E.
    + split.
      * destruct (ltb _ _); split; discriminate.
      * destruct (IHsome m' eq_refl) as [Hin Hmax].
        destruct (ltb (Route.score row) (Route.score m')) eqn:Hlt;
          intros m Hm; injection Hm as <-.
        -- apply ltb_lt in Hlt. split; [right; exact Hin |].
           intros r [<- | Hr]; [apply Qlt_le_weak; exact Hlt | apply Hmax, Hr].
        -- apply ltb_ge in Hlt. split; [left; reflexivity |].
           intros r [<- | Hr]; [apply Qle_refl |].
           eapply Qle_trans; [apply Hmax, Hr | exact Hlt].
    + split; [split; discriminate |].
      intros m Hm. injection Hm as <-.
      assert (rows = []) as -> by (apply IHnone; reflexivity).
      split; [left; reflexivity |].
      intros r [<- | []]. apply Qle_refl.
Qed.

Lemma POST_valid (body : Route.json) (s : number) (db : Route.Db) :
  body <> Route.JNull ->
  Route.scoreOf body = Some (Route.JNumber s) ->
  0 <= s ->
  Route.online db = true ->
  Route.POST (Some body) db =
    match Route.greatest (Route.gameScore db) with
    | None =>
        (Route.Submitted s true,
         Route.mkDb (Route.gameScore db ++ [Route.mkGameScore s]) true)
    | Some m =>
        if gtb s (Route.score m)
        then (Route.Submitted s true,
              Route.mkDb (Route.gameScore db ++ [Route.mkGameScore s]) true)
        else (Route.Submitted (Route.score m) false, db)
    end.
Proof.
  intros Hnull Hscore Hpos Hon. apply ltb_ge in Hpos.
  unfold Route.POST, Route.findFirst, Route.create.
  rewrite Hscore, Hpos, Hon.
  destruct body; try reflexivity. contradiction.
Qed.

Lemma POST_invalid (body : Route.json) (db : Route.Db) :
  body <> Route.JNull ->
  (forall s, Route.scoreOf body = Some (Route.JNumber s) -> s < 0) ->
  Route.POST (Some body) db = (Route.Failed 400 "Invalid score", db).
Proof.
  intros Hnull Hbad. unfold Route.POST.
  destruct (Route.scoreOf body) as [[| | s | | |] |] eqn:E;
    try (destruct body; try reflexivity; contradiction).
  specialize (Hbad s eq_refl). apply ltb_lt in Hbad. rewrite Hbad.
  destruct body; try reflexivity. contradiction.
Qed.

Lemma POST_store (body : option Route.json) (db : Route.Db) :
  snd (Route.POST body db) = db \/
  exists s,
    Route.POST body db =
      (Route.Submitted s true,
       Route.mkDb (Route.gameScore db ++ [Route.mkGameScore s])
                  (Route.online db)).
Proof.
  unfold Route.POST, Route.findFirst, Route.create.
  destruct body as [body |]; [| left; reflexivity].
  destruct (Route.scoreOf body) as [[| | s | | |] |];
    try (left; destruct body; reflexivity).
  destruct (ltb s 0); [left; destruct body; reflexivity |].
  destruct (Route.online db); [| left; destruct body; reflexivity].
  destruct (Route.greatest (Route.gameScore db)) as [m |].
  - destruct (gtb s (Route.score m)).
    + destruct body; try (left; reflexivity); right; exists s; reflexivity.
    + left; destruct body; reflexivity.
  - destruct body; try (left; reflexivity); right; exists s; reflexivity.
Qed.

(** C9 (amended): a submitted score that is a number and not negative
    creates a record and is reported as a new record when the store has no
    record yet or when it strictly exceeds the stored maximum; otherwise
    the stored maximum is returned, not as a new record, and nothing is
    stored.  A score that is negative or not a number is rejected (status
    400) and the store is left as it is; no request changes the store other
    than by that one new record.  Fetching from a store without records
    returns 0. *)
Theorem submit_creates_on_empty_or_higher
        (body : Route.json) (s : number) (db : Route.Db) :
  (body <> Route.JNull ->
   Route.scoreOf body = Some (Route.JNumber s) ->
   0 <= s ->
   Route.online db = true ->
   (Route.gameScore db = [] ->
    Route.POST (Some body) db =
      (Route.Submitted s true, Route.mkDb [Route.mkGameScore s] true)) /\
   (forall m,
       Route.greatest (Route.gameScore db) = Some m ->
       Route.score m < s ->
       Route.POST (Some body) db =
         (Route.Submitted s true,
          Route.mkDb (Route.gameScore db ++ [Route.mkGameScore s]) true)) /\
   (forall m,
       Route.greatest (Route.gameScore db) = Some m ->
       s <= Route.score m ->
       Route.POST (Some body) db = (Route.Submitted (Route.score m) false, db)))
  /\
  (forall m,
      Route.greatest (Route.gameScore db) = Some m ->
      In m (Route.gameScore db) /\
      forall row, In row (Route.gameScore db) ->
                  Route.score row <= Route.score m)
  /\
  (body <> Route.JNull ->
   (forall n, Route.scoreOf body = Some (Route.JNumber n) -> n < 0) ->
   Route.POST (Some body) db = (Route.Failed 400 "Invalid score", db))
  /\
  (forall request,
      snd (Route.POST request db) = db \/
      exists n,
        Route.POST request db =
          (Route.Submitted n true,
           Route.mkDb (Route.gameScore db ++ [Route.mkGameScore n])
                      (Route.online db)))
  /\
  (Route.online db = true -> Route.gameScore db = [] ->
   Route.GET db = Route.Fetched 0).
Proof.
  split; [| split; [| split; [| split]]].
  - intros Hnull Hscore Hpos Hon.
    pose proof (POST_valid body s db Hnull Hscore Hpos Hon) as H.
    split; [| split].
    + intro Hempty. rewrite H, Hempty. reflexivity.
    + intros m Hm Hlt. rewrite H, Hm.
      apply gtb_gt in Hlt. rewrite Hlt. reflexivity.
    + intros m Hm Hle. rewrite H, Hm.
      apply gtb_le in Hle. rewrite Hle. reflexivity.
  - apply greatest_max.
  - apply POST_invalid.
  - intro request. apply POST_store.
  - intros Hon Hempty. unfold Route.GET, Route.findFirst.
    rewrite Hon, Hempty. reflexivity.
Qed.

(** A store whose maximum is 50: 70 is a new record, 50 is not, -1 and a
    string are rejected.  A store without records: 5 is a new record, and
    a fetch returns 0. *)
Lemma submit_creates_on_empty_or_higher_sample :
  Route.POST (Some (Route.JObject [("score"%string, Route.JNumber 70)]))
             (Route.mkDb [Route.mkGameScore 20; Route.mkGameScore 50] true)
  = (Route.Submitted 70 true,
     Route.mkDb [Route.mkGameScore 20; Route.mkGameScore 50;
                 Route.mkGameScore 70] true) /\
  Route.POST (Some (Route.JObject [("score"%string, Route.JNumber 50)]))
             (Route.mkDb [Route.mkGameScore 20; Route.mkGameScore 50] true)
  = (Route.Submitted 50 false,
     Route.mkDb [Route.mkGameScore 20; Route.mkGameScore 50] true) /\
  Route.POST (Some (Route.JObject [("score"%string, Route.JNumber (-1))]))
             (Route.mkDb [Route.mkGameScore 20; Route.mkGameScore 50] true)
  = (Route.Failed 400 "Invalid score",
     Route.mkDb [Route.mkGameScore 20; Route.mkGameScore 50] true) /\
  Route.POST (Some (Route.JObject [("score"%string, Route.JString "70")]))
             (Route.mkDb [Route.mkGameScore 20; Route.mkGameScore 50] true)
  = (Route.Failed 400 "Invalid score",
     Route.mkDb [Route.mkGameScore 20; Route.mkGameScore 50] true) /\
  Route.POST (Some (Route.JObject [("score"%string, Route.JNumber 5)]))
             (Route.mkDb [] true)
  = (Route.Submitted 5 true, Route.mkDb [Route.mkGameScore 5] true) /\
  In (Route.mkGameScore 50) [Route.mkGameScore 20; Route.mkGameScore 50] /\
  Route.GET (Route.mkDb [] true) = Route.Fetched 0.
Proof.
  split; [| split; [| split; [| split; [| split; [| split]]]]].
  - destruct (submit_creates_on_empty_or_higher
                (Route.JObject [("score"%string, Route.JNumber 70)]) 70
                (Route.mkDb [Route.mkGameScore 20; Route.mkGameScore 50] true))
      as [H _].
    destruct H as (_ & Hhigher & _);
      [discriminate | reflexivity | vm_compute; discriminate | reflexivity |].
    apply (Hhigher (Route.mkGameScore 50)); reflexivity.
  - destruct (submit_creates_on_empty_or_higher
                (Route.JObject [("score"%string, Route.JNumber 50)]) 50
                (Route.mkDb [Route.mkGameScore 20; Route.mkGameScore 50] true))
      as [H _].
    destruct H as (_ & _ & Hlower);
      [discriminate | reflexivity | vm_compute; discriminate | reflexivity |].
    apply (Hlower (Route.mkGameScore 50));
      [reflexivity | vm_compute; discriminate].
  - destruct (submit_creates_on_empty_or_higher
                (Route.JObject [("score"%string, Route.JNumber (-1))]) 0
                (Route.mkDb [Route.mkGameScore 20; Route.mkGameScore 50] true))
      as (_ & _ & H & _).
    apply H; [discriminate |].
    intros n Hn. injection Hn as <-. reflexivity.
  - destruct (submit_creates_on_empty_or_higher
                (Route.JObject [("score"%string, Route.JString "70")]) 0
                (Route.mkDb [Route.mkGameScore 20; Route.mkGameScore 50] true))
      as (_ & _ & H & _).
    apply H; [discriminate |].
    intros n Hn. discriminate Hn.
  - destruct (submit_creates_on_empty_or_higher
                (Route.JObject [("score"%string, Route.JNumber 5)]) 5
                (Route.mkDb [] true))
      as [H _].
    destruct H as (Hempty & _);
      [discriminate | reflexivity | vm_compute; discriminate | reflexivity |].
    apply Hempty. reflexivity.
  - destruct (submit_creates_on_empty_or_higher Route.JNull 0
                (Route.mkDb [Route.mkGameScore 20; Route.mkGameScore 50] true))
      as (_ & Hmax & _).
    apply (Hmax (Route.mkGameScore 50)). reflexivity.
  - destruct (submit_creates_on_empty_or_higher Route.JNull 0
                (Route.mkDb [] true)) as (_ & _ & _ & _ & H).
    apply H; reflexivity.
Defined.

(** Submitting 0 to a store without records: 0 is what a fetch reports,
    0 does not exceed it, and yet a record is created and reported as new. *)
Lemma zero_is_a_record_on_an_empty_store :
  Route.GET (Route.mkDb [] true) = Route.Fetched 0 /\
  ~ 0 < 0 /\
  Route.POST (Some (Route.JObject [("score"%string, Route.JNumber 0)]))
             (Route.mkDb [] true)
  = (Route.Submitted 0 true, Route.mkDb [Route.mkGameScore 0] true).
Proof.
  split; [reflexivity |]. split; [| reflexivity].
  intro H. vm_compute in H. discriminate H.
Qed.

(** C10: on a store without records every submitted score that is a number
    and not negative, 0 included, creates a record and is reported as a
    new record, although a fetch reports 0 for that store and the test
    [score > 0] fails for a score of 0. *)
Theorem first_submission_is_a_record
        (fields : list (string * Route.json)) (s : number) :
  Route.property "score" fields = Some (Route.JNumber s) ->
  0 <= s ->
  Route.GET (Route.mkDb [] true) = Route.Fetched 0 /\
  Route.POST (Some (Route.JObject fields)) (Route.mkDb [] true)
  = (Route.Submitted s true, Route.mkDb [Route.mkGameScore s] true) /\
  (s == 0 -> gtb s 0 = false).
Proof.
  intros Hscore Hpos. split; [reflexivity |]. split.
  - rewrite (POST_valid (Route.JObject fields) s (Route.mkDb [] true));
      [reflexivity | discriminate | exact Hscore | exact Hpos | reflexivity].
  - intro Hz. apply gtb_le. rewrite Hz. apply Qle_refl.
Qed.

(** The first submission of a score of 0. *)
Lemma first_submission_of_zero :
  Route.property "score" [("score"%string, Route.JNumber 0)]
  = Some (Route.JNumber 0) /\
  0 <= 0 /\
  Route.POST (Some (Route.JObject [("score"%string, Route.JNumber 0)]))
             (Route.mkDb [] true)
  = (Route.Submitted 0 true, Route.mkDb [Route.mkGameScore 0] true) /\
  gtb 0 0 = false.
Proof.
  assert (H1 : Route.property "score" [("score"%string, Route.JNumber 0)]
               = Some (Route.JNumber 0)) by reflexivity.
  assert (H2 : 0 <= 0) by apply Qle_refl.
  destruct (first_submission_is_a_record
              [("score"%string, Route.JNumber 0)] 0 H1 H2)
    as (_ & Hpost & Hgt).
  split; [exact H1 |]. split; [exact H2 |]. split; [exact Hpost |].
  apply Hgt. reflexivity.
Defined.

(** ** Properties of the player that every run keeps *)

Section PlayerInvariant.

Variable P : Player.t -> Prop.
Hypothesis P_x : forall v p, P p -> P (Player.set_x v p).
Hypothesis P_y : forall v p, P p -> P (Player.set_y v p).
Hypothesis P_health : forall v p, P p -> P (Player.set_health v p).
Hypothesis P_lastShot : forall v p, P p -> P (Player.set_lastShot v p).
Hypothesis P_powerUp : forall type p, P p -> P (applyPowerUp type p).

Lemma keeps_refl (s : Sim) : keeps P s s.
Proof. intro H. exact H. Qed.

Lemma keeps_trans (a b c : Sim) : keeps P a b -> keeps P b c -> keeps P a c.
Proof. unfold keeps. auto. Qed.

Lemma keeps_same (s s' : Sim) :
  player (refs s') = player (refs s) -> keeps P s s'.
Proof. intros E H. rewrite E. exact H. Qed.

Lemma movePlayer_keeps (keys : string -> bool) (p : Player.t) :
  P p -> P (movePlayer keys p).
Proof.
  intro H. unfold movePlayer.
  repeat match goal with
         | |- context [held ?k ?a ?b] => destruct (held k a b)
         end; auto.
Qed.

Lemma shootBullet_keeps (timestamp : number) (r : Refs) :
  P (player r) -> P (player (shootBullet timestamp r)).
Proof.
  intro H. unfold shootBullet. destruct (ltb _ _); [exact H |].
  cbn. apply P_lastShot, H.
Qed.

Lemma enemyStep_keeps (tape : nat -> Z) (enemy : Enemy.t) (s : Sim) :
  keeps P s (snd (enemyStep tape enemy s)).
Proof.
  intro H. unfold enemyStep. destruct (hitsPlayer _ _); [| exact H].
  cbn [snd on_refs emit refs].
  match goal with
  | |- context [spawnPowerUp tape ?x ?y ?r] =>
      destruct (spawnPowerUp_frame tape x y r) as (-> & _)
  end.
  cbn. apply P_health, H.
Qed.

Lemma powerUpStep_keeps (powerUp : PowerUp.t) (s : Sim) :
  keeps P s (snd (powerUpStep powerUp s)).
Proof.
  intro H. unfold powerUpStep. destruct (picksUp _ _); [| exact H].
  cbn. apply P_powerUp, H.
Qed.

Lemma bulletStep_keeps (tape : nat -> Z) (bullet : Bullet.t) (s : Sim) :
  keeps P s (snd (bulletStep tape bullet s)).
Proof.
  intro H. unfold bulletStep.
  pose proof (hitStep_pass tape bullet (enemies (refs s)) false s)
    as (_ & _ & Hp & _).
  destruct (filter_mut _ _ _) as [survivors [hit s1]].
  cbn in *. rewrite Hp. exact H.
Qed.

Lemma pass_keeps {A : Type} (f : A -> Sim -> option A * Sim)
      (l : list A) (set : list A -> Refs -> Refs) (s : Sim) :
  (forall a s, keeps P s (snd (f a s))) ->
  (forall v r, player (set v r) = player r) ->
  keeps P s (let '(l', s') := filter_mut f l s in on_refs (set l') s').
Proof.
  intros Hstep Hset.
  pose proof (filter_mut_preorder (keeps P) f keeps_refl keeps_trans
                                  Hstep l s) as H.
  destruct (filter_mut f l s) as [l' s']. cbn [snd] in H.
  eapply keeps_trans; [exact H |].
  apply keeps_same. apply Hset.
Qed.

Lemma stage_move (keys : string -> bool) (s : Sim) :
  keeps P s
        (on_refs (fun r => set_player (movePlayer keys (player r)) r) s).
Proof. intro H. cbn. apply movePlayer_keeps, H. Qed.

Lemma stage_shoot (timestamp : number) (s : Sim) :
  keeps P s (on_refs (shootBullet timestamp) s).
Proof. intro H. cbn [on_refs refs]. apply shootBullet_keeps, H. Qed.

Lemma stage_bulletsMove (s : Sim) : keeps P s (bulletsMove s).
Proof.
  apply pass_keeps; [intros a s0; apply keeps_refl | reflexivity].
Qed.

Lemma stage_spawn (tape : nat -> Z) (score : number) (s : Sim) :
  keeps P s (on_refs (maybeSpawnEnemy tape score) s).
Proof. apply keeps_same. cbn. apply maybeSpawnEnemy_player. Qed.

Lemma stage_enemies (tape : nat -> Z) (s : Sim) :
  keeps P s (enemiesPass tape s).
Proof. apply pass_keeps; [exact (enemyStep_keeps tape) | reflexivity]. Qed.

Lemma stage_powerUps (s : Sim) : keeps P s (powerUpsPass s).
Proof. apply pass_keeps; [exact powerUpStep_keeps | reflexivity]. Qed.

Lemma stage_bullets (tape : nat -> Z) (s : Sim) :
  keeps P s (bulletsPass tape s).
Proof. apply pass_keeps; [exact (bulletStep_keeps tape) | reflexivity]. Qed.

Lemma stage_explosions (s : Sim) : keeps P s (explosionsPass s).
Proof.
  apply pass_keeps; [intros a s0; apply keeps_refl | reflexivity].
Qed.

Lemma stage_over (score : number) (s : Sim) :
  keeps P s (gameOverCheck score s).
Proof.
  apply keeps_same. unfold gameOverCheck. destruct (leb _ 0); reflexivity.
Qed.

Lemma updateGame_keeps (tape : nat -> Z) (timestamp : number)
      (keys : string -> bool) (h : Hooks) (r : Refs) :
  keeps P (mkSim r []) (updateGame tape timestamp keys h r).
Proof.
  intro H. unfold updateGame. destruct (gameState h); try exact H.
  apply stage_over, stage_explosions, stage_bullets, stage_powerUps,
    stage_enemies, stage_spawn, stage_bulletsMove, stage_shoot, stage_move.
  exact H.
Qed.

Lemma run_keeps (tape : nat -> Z) (events : list Event) :
  P initialPlayer -> P (player (world (run tape events))).
Proof.
  intro H0. unfold run.
  assert (Hgen : forall g, P (player (world g)) ->
                           P (player (world (fold_left (step tape) events g)))).
  { induction events as [| e events IH]; intros g Hg; cbn [fold_left].
    - exact Hg.
    - apply IH. destruct e as [| timestamp keys]; cbn [step].
      + exact H0.
      + unfold tick, commit.
        destruct (fold_left apply_update _ _) as [h' sent']. cbn [world].
        apply (updateGame_keeps tape timestamp keys (hooks g) (world g)).
        exact Hg. }
  apply Hgen. exact H0.
Qed.

End PlayerInvariant.

Lemma of_nat_le (n m : nat) : (n <= m)%nat -> of_nat n <= of_nat m.
Proof. intro H. unfold of_nat. rewrite <- Zle_Qle. lia. Qed.

Lemma applyPowerUp_inRange (type : PowerUpType) (p : Player.t) :
  inRange p -> inRange (applyPowerUp type p).
Proof.
  intros (Hsize & Hrate & n & Hn & Hcount).
  destruct type; unfold inRange; cbn.
  - split; [| split; [exact Hrate | exists n; auto]].
    revert Hsize. generalize (Player.bulletSize p). q_minmax.
  - split; [exact Hsize |]. split; [| exists n; auto].
    revert Hrate. generalize (Player.fireRate p). q_minmax.
  - split; [exact Hsize |]. split; [exact Hrate |].
    destruct (Nat.eq_dec n 5) as [-> | Hne].
    + exists 5%nat. split; [lia |].
      change (of_nat 5) with 5 in *. revert Hcount.
      generalize (Player.bulletCount p). q_minmax.
    + exists (S n). split; [lia |].
      pose proof (of_nat_le n 4 ltac:(lia)) as Hle.
      change (of_nat 4) with 4 in Hle.
      pose proof (of_nat_S n) as HS. revert Hcount Hle HS.
      generalize (Player.bulletCount p) (of_nat (S n)) (of_nat n).
      q_minmax.
Qed.

(** Along every run the firing statistics stay in their ranges; the number
    of bullets of a volley is a whole number from 1 to 5. *)
Lemma inRange_run (tape : nat -> Z) (events : list Event) :
  inRange (player (world (run tape events))).
Proof.
  apply run_keeps; try (intros v p H; exact H).
  - exact applyPowerUp_inRange.
  - split; [split; vm_compute; discriminate |].
    split; [split; vm_compute; discriminate |].
    exists 1%nat. split; [lia | reflexivity].
Qed.

(** In every state reached by a run, a shot whose cooldown has elapsed adds
    exactly [bulletCount] bullets, between 1 and 5 of them. *)
Lemma volley_in_play (tape : nat -> Z) (events : list Event)
      (timestamp : number) :
  Player.fireRate (player (world (run tape events)))
  <= timestamp - Player.lastShot (player (world (run tape events))) ->
  exists n,
    (1 <= n <= 5)%nat /\
    Player.bulletCount (player (world (run tape events))) == of_nat n /\
    List.length (bullets (shootBullet timestamp (world (run tape events))))
    = (List.length (bullets (world (run tape events))) + n)%nat.
Proof.
  intro Hcool.
  destruct (inRange_run tape events) as (_ & _ & n & Hn & Hcount).
  exists n. split; [exact Hn |]. split; [exact Hcount |].
  destruct (shootBullet_open timestamp _ Hcool) as (v & -> & Hlen & _).
  cbn. rewrite length_app, Hlen, (trips_of_nat _ _ Hcount). reflexivity.
Qed.

(** ** The size pickups in binary64 *)

(** With the rounding of doubles the bullet size goes 1, 1.3, 1.6,
    1.9000000000000001 and then to the cap: from the fourth pickup on it
    is exactly 2, as in the rational model. *)
Lemma size_pickups_binary64 (n : nat) :
  Nat.iter (4 + n) Binary64.pickSize Binary64.one = Binary64.two.
Proof.
  induction n as [| n IH].
  - vm_compute. reflexivity.
  - change (Binary64.pickSize
              (Nat.iter (4 + n) Binary64.pickSize Binary64.one)
            = Binary64.two).
    rewrite IH. vm_compute. reflexivity.
Qed.

(** ** The other computations that round in binary64 *)

Module Doubles.
Import PrimFloat.

(** For the largest draw the speed of a small enemy is exactly 3.5 and
    that of a medium one exactly 2: the ends of the ranges are reached,
    which they are not in exact arithmetic. *)
Lemma top_speeds_binary64 :
  Binary64.smallSpeed Binary64.top_draw = 3.5%float /\
  Binary64.mediumSpeed Binary64.top_draw = 2%float.
Proof. split; vm_compute; reflexivity. Qed.

(** For the largest draw an enemy still ends left of the right edge of the
    canvas, whatever its width. *)
Lemma widest_columns_binary64 :
  (Binary64.column Binary64.top_draw 40 + 40 <? 600)%float = true /\
  (Binary64.column Binary64.top_draw 60 + 60 <? 600)%float = true /\
  (Binary64.column Binary64.top_draw 80 + 80 <? 600)%float = true.
Proof. repeat split; vm_compute; reflexivity. Qed.

(** The draw that is the double of 0.6 is not below the literal 0.6 of the
    source, and gives a medium enemy; the draw before it gives a small
    one. *)
Lemma kind_binary64 :
  Binary64.kind Binary64.below_six_tenths = medium /\
  Binary64.kind (PrimFloat.next_down Binary64.below_six_tenths) = small.
Proof. split; vm_compute; reflexivity. Qed.

(** At a score of 19760 the bound of the spawn check is exactly 1, above
    every draw; at 19755 it is below 1. *)
Lemma spawnBound_binary64 :
  Binary64.spawnBound 19760 = 1%float /\
  (Binary64.top_draw <? Binary64.spawnBound 19760)%float = true /\
  (Binary64.spawnBound 19755 <? 1)%float = true.
Proof. repeat split; vm_compute; reflexivity. Qed.

(** Three times the largest draw below two thirds is rounded up to 2: the
    index is 2 ([count]), where exact arithmetic gives 1 ([rate]).  The
    draw before it gives 1, the largest draw of all gives 2, and the two
    draws around one third fall as in exact arithmetic. *)
Lemma pickIndex_binary64 :
  Binary64.pickIndex Binary64.below_two_thirds = 2%nat /\
  Binary64.pickIndex (PrimFloat.next_down Binary64.below_two_thirds) = 1%nat /\
  Binary64.pickIndex Binary64.top_draw = 2%nat /\
  Binary64.pickIndex 0x1.5555555555554p-2%float = 0%nat /\
  Binary64.pickIndex 0x1.5555555555556p-2%float = 1%nat.
Proof. repeat split; vm_compute; reflexivity. Qed.

(** An explosion fades in 33 passes in binary64 as well: up to 33 passes
    leave it in the collection with an opacity above 0 and at most 1, and
    the 34th removes it. *)
Lemma explosion_kept_binary64 (k : nat) :
  (k <= 33)%nat ->
  exists radius opacity,
    Binary64.passes k Binary64.fresh = Some (radius, opacity) /\
    (0 <? opacity)%float = true /\ (opacity <=? 1)%float = true.
Proof.
  intro Hk.
  do 34 (destruct k as [| k];
         [do 2 eexists; split;
          [vm_compute; reflexivity | split; vm_compute; reflexivity] |]).
  lia.
Qed.

Lemma explosion_gone_binary64 (k : nat) :
  (33 < k)%nat -> Binary64.passes k Binary64.fresh = None.
Proof.
  intro Hk. replace k with ((k - 34) + 34)%nat by lia.
  induction (k - 34)%nat as [| n IH].
  - vm_compute. reflexivity.
  - change (match Binary64.passes (n + 34) Binary64.fresh with
            | Some explosion => Binary64.explosionStep explosion
            | None => None
            end = None).
    rewrite IH. reflexivity.
Qed.

(** For the whole bullet sizes 1 and 2, every whole position of the player
    on the canvas and every number of bullets up to 5, the left edge of
    each bullet of a volley is computed without rounding and is the one of
    the closed form.  For the size 1.3 it is not. *)
Lemma volley_binary64 :
  forallb
    (fun x =>
       forallb
         (fun size =>
            forallb
              (fun n =>
                 forallb
                   (fun i =>
                      (Binary64.bulletX (Binary64.of_nat x) size
                                        (Binary64.of_nat n) (Binary64.of_nat i)
                       =? Binary64.layoutX (Binary64.of_nat x) size
                                           (Binary64.of_nat n)
                                           (Binary64.of_nat i))%float)
                   (seq 0 n))
              (seq 1 5))
         [1%float; 2%float])
    (seq 0 551)
  = true /\
  (Binary64.bulletX 275 0x1.4cccccccccccdp+0 2 0
   =? Binary64.layoutX 275 0x1.4cccccccccccdp+0 2 0)%float = false.
Proof. split; vm_compute; reflexivity. Qed.

End Doubles.

(** ** The approach *)

(** The 115 frames of [approach] take the player to the top left corner
    area, with its last shot at 1000 ms and no bullet left in flight. *)
Example approach_ends :
  bearing (run (tape_of []) approach) = (0, 10, 100) /\
  Qred (Player.lastShot (player (world (run (tape_of []) approach)))) = 1000 /\
  bullets (world (run (tape_of []) approach)) = [] /\
  enemies (world (run (tape_of []) approach)) = [] /\
  cursor (world (run (tape_of []) approach)) = 115%nat.
Proof. repeat split; vm_compute; reflexivity. Qed.

(** * Further properties of the game and of the route *)

(** ** The entities along a run *)

Lemma filter_mut_Forall {A S : Type} (P Q : A -> Prop) (I : S -> Prop)
      (f : A -> S -> option A * S) :
  (forall a s, P a -> I s ->
               I (snd (f a s)) /\
               forall a', fst (f a s) = Some a' -> Q a') ->
  forall l s, Forall P l -> I s ->
              Forall Q (fst (filter_mut f l s)) /\
              I (snd (filter_mut f l s)).
Proof.
  intros Hstep l. induction l as [| a l IH]; intros s Hl Hs.
  - cbn. auto.
  - rewrite filter_mut_cons. inversion Hl as [| ? ? Ha Hl']; subst.
    destruct (Hstep a s Ha Hs) as [Hs1 Hkept].
    destruct (f a s) as [kept s1]. cbn [fst snd] in *.
    destruct (IH s1 Hl' Hs1) as [Hrest Hs2].
    destruct (filter_mut f l s1) as [rest s2]. cbn [fst snd] in *.
    split; [| exact Hs2].
    destruct kept as [a' |]; [constructor; auto | exact Hrest].
Qed.

Lemma hitsPlayer_spot (p q : Player.t) (e : Enemy.t) :
  spot p = spot q -> hitsPlayer p e = hitsPlayer q e.
Proof.
  unfold spot, hitsPlayer. intro H. injection H as -> -> -> ->. reflexivity.
Qed.

Lemma initialPlayer_OK : playerOK initialPlayer.
Proof.
  unfold playerOK. cbn.
  repeat split; try reflexivity; try (vm_compute; discriminate).
  exists 1%nat. split; [lia | reflexivity].
Qed.

Lemma movePlayer_OK (keys : string -> bool) (p : Player.t) :
  playerOK p -> playerOK (movePlayer keys p).
Proof.
  intros (Hw & Hh & Hs & Hx & Hy & Hr). unfold movePlayer.
  repeat match goal with
         | |- context [held ?k ?a ?b] => destruct (held k a b)
         end;
    unfold playerOK; cbn; rewrite ?Hw, ?Hh, ?Hs in *;
    (split; [reflexivity |]); (split; [reflexivity |]);
    (split; [reflexivity |]);
    (split; [| split; [| exact Hr]]);
    unfold CANVAS_WIDTH, CANVAS_HEIGHT in *;
    revert Hx Hy; generalize (Player.x p) (Player.y p); q_minmax.
Qed.

Lemma shootBullet_sound (timestamp : number) (r : Refs) :
  sound r -> sound (shootBullet timestamp r).
Proof.
  intros H. pose proof H as (Hp & Hb & He & Hu & Hx). unfold shootBullet.
  destruct (ltb _ _); [exact H |].
  unfold sound. cbn. split; [exact Hp |].
  split; [| auto]. apply Forall_app. split; [exact Hb |].
  apply Forall_forall. intros b Hin. apply in_map_iff in Hin.
  destruct Hin as [i [<- _]].
  destruct Hp as (_ & Hh & _ & _ & Hy & (Hsize & _)).
  unfold bulletOK. cbn. rewrite Hh in Hy.
  repeat split; try reflexivity; try tauto; lra.
Qed.

Lemma moveBullet_OK (bullet : Bullet.t) (s : Sim) :
  bulletOK bullet ->
  forall b', fst (moveBullet bullet s) = Some b' -> bulletOK b'.
Proof.
  intros (Hs & Hz & Hw & Hh & Hd & Hy) b'. unfold moveBullet. cbn [fst].
  destruct (gtb _ _) eqn:E; [| discriminate].
  intro H. injection H as <-. apply gtb_gt in E. cbn in E.
  unfold bulletOK. cbn. rewrite Hs in *.
  repeat split; try assumption; try tauto; lra.
Qed.

Lemma spawnEnemy_sound (tape : nat -> Z) (r : Refs) :
  sound r -> sound (spawnEnemy tape r).
Proof.
  intros (Hp & Hb & He & Hu & Hx). unfold spawnEnemy.
  pose proof (Math_random_range tape r) as H1.
  destruct (Math_random tape r) as [type r1] eqn:E1.
  pose proof (Math_random_range tape r1) as H2.
  destruct (Math_random tape r1) as [rx r2] eqn:E2.
  pose proof (Math_random_range tape r2) as H3.
  destruct (Math_random tape r2) as [rs r3] eqn:E3.
  unfold Math_random in E1, E2, E3.
  injection E1 as _ <-. injection E2 as _ <-. injection E3 as _ <-.
  cbn [fst] in *.
  destruct (ltb type 0.6); [| destruct (ltb type 0.9)];
    unfold sound; cbn;
    (split; [exact Hp |]); (split; [exact Hb |]);
    (split; [| auto]);
    (apply Forall_app; split; [exact He |]);
    constructor; [| constructor | | constructor | | constructor];
    unfold enemyOK, shaped, CANVAS_WIDTH, CANVAS_HEIGHT; cbn;
    repeat split; try reflexivity; try lra.
Qed.

Lemma maybeSpawnEnemy_sound (tape : nat -> Z) (score : number) (r : Refs) :
  sound r -> sound (maybeSpawnEnemy tape score r).
Proof.
  intro H. unfold maybeSpawnEnemy.
  destruct (Math_random tape r) as [roll r1] eqn:E.
  unfold Math_random in E. injection E as _ <-.
  assert (H1 : sound (set_cursor (S (cursor r)) r)) by exact H.
  destruct (ltb roll _); [apply spawnEnemy_sound |]; exact H1.
Qed.

Lemma spawnPowerUp_sound (tape : nat -> Z) (x y : number) (r : Refs) :
  sound r -> sound (spawnPowerUp tape x y r).
Proof.
  intros (Hp & Hb & He & Hu & Hx). unfold spawnPowerUp, Math_random. cbn.
  destruct (gtb _ 0.3); unfold sound; cbn; [auto |].
  split; [exact Hp |]. split; [exact Hb |]. split; [exact He |].
  split; [| exact Hx]. apply Forall_app. split; [exact Hu |].
  constructor; [| constructor]. repeat split.
Qed.

Lemma explosion_sound (x : Explosion.t) (r : Refs) :
  explosionOK x -> sound r -> sound (set_explosions (explosions r ++ [x]) r).
Proof.
  intros Hx0 (Hp & Hb & He & Hu & Hx). unfold sound. cbn.
  split; [exact Hp |]. split; [exact Hb |]. split; [exact He |].
  split; [exact Hu |]. apply Forall_app. auto.
Qed.

Lemma fresh_explosion_OK (x y m : number) :
  explosionOK (Explosion.mk x y 0 m 1).
Proof.
  exists 0%nat. cbn. split; [lia |]. split; reflexivity.
Qed.

Lemma speed_positive (e : Enemy.t) : shaped e -> 0 < Enemy.speed e.
Proof.
  unfold shaped. destruct (Enemy.type e); intros [(_ & _ & _ & H) _]; lra.
Qed.

(** The enemy pass keeps the world sound, and what it keeps of the enemies
    is off the rectangle [sp] of the player. *)
Lemma enemyStep_sound (tape : nat -> Z)
      (sp : number * number * number * number) (enemy : Enemy.t) (s : Sim) :
  enemyOK enemy ->
  sound (refs s) /\ spot (player (refs s)) = sp ->
  (sound (refs (snd (enemyStep tape enemy s))) /\
   spot (player (refs (snd (enemyStep tape enemy s)))) = sp) /\
  forall e', fst (enemyStep tape enemy s) = Some e' ->
             enemyOK e' /\
             forall p, spot p = sp -> hitsPlayer p e' = false.
Proof.
  intros (Hshape & Halive & Hy) [Hsound Hspot]. unfold enemyStep.
  destruct (hitsPlayer (player (refs s)) _) eqn:Hhit.
  - cbn [fst snd]. split; [| discriminate].
    cbn [on_refs emit refs].
    match goal with
    | |- context [spawnPowerUp tape ?x ?y ?r] =>
        assert (Hr : sound r);
        [| pose proof (spawnPowerUp_sound tape x y r Hr) as Hs';
           destruct (spawnPowerUp_frame tape x y r) as (Hp' & _)]
    end.
    { apply explosion_sound; [apply fresh_explosion_OK |].
      destruct Hsound as (Hp & Hrest). split; [exact Hp | exact Hrest]. }
    split; [exact Hs' |]. rewrite Hp'. exact Hspot.
  - cbn [fst snd]. split; [auto |].
    destruct (ltb _ _) eqn:Hview; [| discriminate].
    intros e' H. injection H as <-. apply ltb_lt in Hview. cbn in Hview.
    split.
    + pose proof (speed_positive enemy Hshape) as Hpos.
      unfold enemyOK. split; [exact Hshape |]. split; [exact Halive |].
      cbn. split; [lra | exact Hview].
    + intros p Hp. rewrite (hitsPlayer_spot p (player (refs s))); [exact Hhit |].
      congruence.
Qed.

Lemma applyPowerUp_OK (type : PowerUpType) (p : Player.t) :
  playerOK p -> playerOK (applyPowerUp type p).
Proof.
  intros (Hw & Hh & Hs & Hx & Hy & Hr).
  pose proof (applyPowerUp_inRange type p Hr) as Hr'.
  destruct type; unfold playerOK; cbn; auto 10.
Qed.

Lemma applyPowerUp_spot (type : PowerUpType) (p : Player.t) :
  spot (applyPowerUp type p) = spot p.
Proof. destruct type; reflexivity. Qed.

Lemma powerUpStep_settled (powerUp : PowerUp.t) (s : Sim) :
  powerUpOK powerUp ->
  settled (refs s) ->
  settled (refs (snd (powerUpStep powerUp s))) /\
  forall u', fst (powerUpStep powerUp s) = Some u' -> powerUpOK u'.
Proof.
  intros Hu Hs. unfold powerUpStep. destruct (picksUp _ _).
  - cbn [fst snd]. split; [| discriminate].
    destruct Hs as [(Hp & Hrest) Hclear]. cbn.
    split; [split; [apply applyPowerUp_OK, Hp | exact Hrest] |].
    cbn. eapply Forall_impl; [| exact Hclear]. cbn. intros e He.
    rewrite <- He. apply hitsPlayer_spot, applyPowerUp_spot.
  - cbn [fst snd]. split; [exact Hs |].
    destruct (ltb _ _); [| discriminate].
    intros u' H. injection H as <-. exact Hu.
Qed.

Lemma explosionStep_OK (explosion : Explosion.t) (s : Sim) :
  explosionOK explosion ->
  forall x', fst (explosionStep explosion s) = Some x' -> explosionOK x'.
Proof.
  intros (k & Hk & Hr & Ho) x'. unfold explosionStep. cbn [fst].
  destruct (gtb _ 0) eqn:E; [| discriminate].
  intro H. injection H as <-. apply gtb_gt in E. cbn in E.
  exists (S k). cbn. pose proof (of_nat_S k) as HS.
  split; [| split; [rewrite Hr, HS; ring | rewrite Ho, HS; ring]].
  destruct (Nat.le_gt_cases (S k) 33) as [Hle | Hgt]; [exact Hle |].
  exfalso. assert (H33 : of_nat 33 <= of_nat k) by (apply of_nat_le; lia).
  change (of_nat 33) with 33 in H33. rewrite Ho in E. lra.
Qed.

(** One bullet against one enemy: the world stays sound, the player is not
    touched, and an enemy that is kept is still sound and where it was. *)
Lemma hitStep_sound (tape : nat -> Z) (bullet : Bullet.t) (p : Player.t)
      (enemy : Enemy.t) (st : bool * Sim) :
  bulletOK bullet ->
  enemyOK enemy /\ hitsPlayer p enemy = false ->
  sound (refs (snd st)) /\ player (refs (snd st)) = p ->
  (sound (refs (snd (snd (hitStep tape bullet enemy st)))) /\
   player (refs (snd (snd (hitStep tape bullet enemy st)))) = p) /\
  forall e', fst (hitStep tape bullet enemy st) = Some e' ->
             enemyOK e' /\ hitsPlayer p e' = false.
Proof.
  intros (_ & Hsize & _ & _ & Hdamage & _) [(Hshape & Halive & Hy) Hoff]
         [Hsound Hp].
  destruct st as [hit s]. cbn [snd] in *. unfold hitStep.
  destruct (hitsEnemy bullet enemy); [| cbn; auto using conj].
  - cbn [Enemy.health Enemy.set_health].
    destruct (leb _ 0) eqn:Hdead; cbn [fst snd].
    + split; [| discriminate]. cbn [emit on_refs refs].
      match goal with
      | |- context [spawnPowerUp tape ?x ?y ?r] =>
          assert (Hr : sound r);
          [| pose proof (spawnPowerUp_sound tape x y r Hr) as Hs';
             destruct (spawnPowerUp_frame tape x y r) as (Hp' & _)]
      end.
      { apply explosion_sound; [apply fresh_explosion_OK | exact Hsound]. }
      split; [exact Hs' |]. rewrite Hp'. exact Hp.
    + split; [auto |]. intros e' H. injection H as <-.
      apply leb_gt in Hdead. split; [| exact Hoff].
      unfold enemyOK. split; [exact Hshape |]. cbn.
      split; [| exact Hy]. rewrite Hdamage in Hdead |- *. lra.
  - split; [auto |]. intros e' H. injection H as <-.
    split; [exact (conj Hshape (conj Halive Hy)) | exact Hoff].
Qed.

Lemma bulletStep_settled (tape : nat -> Z) (bullet : Bullet.t) (s : Sim) :
  bulletOK bullet ->
  settled (refs s) ->
  settled (refs (snd (bulletStep tape bullet s))) /\
  forall b', fst (bulletStep tape bullet s) = Some b' -> bulletOK b'.
Proof.
  intros Hb [Hsound Hclear]. unfold bulletStep.
  pose proof
       (filter_mut_Forall
          (fun e => enemyOK e /\ hitsPlayer (player (refs s)) e = false)
          (fun e => enemyOK e /\ hitsPlayer (player (refs s)) e = false)
          (fun st : bool * Sim =>
             sound (refs (snd st)) /\ player (refs (snd st)) = player (refs s))
          (hitStep tape bullet)
          (fun e st He Hst =>
             hitStep_sound tape bullet (player (refs s)) e st Hb He Hst)
          (enemies (refs s)) (false, s)) as H.
  destruct H as [Hkept [Hs' Hp']].
  { destruct Hsound as (_ & _ & He & _).
    apply Forall_forall. intros e Hin. split.
    - eapply Forall_forall in He; eassumption.
    - eapply Forall_forall in Hclear; eassumption. }
  { cbn. auto. }
  destruct (filter_mut _ _ _) as [survivors [hit s1]]. cbn [fst snd] in *.
  split.
  - destruct Hs' as (Hp1 & Hb1 & _ & Hu1 & Hx1). unfold settled, sound. cbn.
    split.
    + split; [exact Hp1 |]. split; [exact Hb1 |]. split; [| auto].
      eapply Forall_impl; [| exact Hkept]. cbn. tauto.
    + rewrite Hp'. eapply Forall_impl; [| exact Hkept]. cbn. tauto.
  - destruct (negb hit); [| discriminate].
    intros b' H. injection H as <-. exact Hb.
Qed.

Lemma gameOverCheck_refs (score : number) (s : Sim) :
  refs (gameOverCheck score s) = refs s.
Proof. unfold gameOverCheck. destruct (leb _ 0); reflexivity. Qed.

(** A frame of play takes a sound world to a settled one. *)
Lemma updateGame_settles (tape : nat -> Z) (timestamp : number)
      (keys : string -> bool) (h : Hooks) (r : Refs) :
  gameState h = playing ->
  sound r -> settled (refs (updateGame tape timestamp keys h r)).
Proof.
  intros Hplay Hsound. unfold updateGame. rewrite Hplay.
  rewrite gameOverCheck_refs.
  (* the player moves, shoots; the bullets fly; an enemy may spawn *)
  set (s1 := on_refs (fun r => set_player (movePlayer keys (player r)) r)
                     (mkSim r [])).
  assert (H1 : sound (refs s1)).
  { destruct Hsound as (Hp & Hrest). split; [| exact Hrest].
    apply movePlayer_OK, Hp. }
  clearbody s1.
  set (s2 := on_refs (shootBullet timestamp) s1).
  assert (H2 : sound (refs s2)) by (apply shootBullet_sound, H1).
  clearbody s2.
  set (s3 := bulletsMove s2).
  assert (H3 : sound (refs s3)).
  { subst s3. unfold bulletsMove.
    destruct (filter_mut_Forall bulletOK bulletOK (fun s => sound (refs s))
                moveBullet
                (fun b s Hb Hs => conj Hs (moveBullet_OK b s Hb))
                (bullets (refs s2)) s2) as [Hl Hs];
      [apply H2 | exact H2 |].
    destruct (filter_mut moveBullet _ _) as [l s']. cbn [fst snd] in *.
    destruct Hs as (Hp & _ & Hrest). split; [exact Hp |].
    split; [exact Hl | exact Hrest]. }
  clearbody s3.
  set (s4 := on_refs (maybeSpawnEnemy tape (score h)) s3).
  assert (H4 : sound (refs s4)) by (apply maybeSpawnEnemy_sound, H3).
  clearbody s4.
  (* the enemy pass clears the player's rectangle *)
  set (s5 := enemiesPass tape s4).
  assert (H5 : settled (refs s5)).
  { subst s5. unfold enemiesPass.
    destruct (filter_mut_Forall
                enemyOK
                (fun e => enemyOK e /\
                          forall p, spot p = spot (player (refs s4)) ->
                                    hitsPlayer p e = false)
                (fun s => sound (refs s) /\
                          spot (player (refs s)) = spot (player (refs s4)))
                (enemyStep tape)
                (enemyStep_sound tape (spot (player (refs s4))))
                (enemies (refs s4)) s4) as [Hl [Hs Hspot]];
      [apply H4 | split; [exact H4 | reflexivity] |].
    destruct (filter_mut (enemyStep tape) _ _) as [l s']. cbn [fst snd] in *.
    destruct Hs as (Hp & Hb & _ & Hrest). split.
    - split; [exact Hp |]. split; [exact Hb |]. split; [| exact Hrest].
      eapply Forall_impl; [| exact Hl]. cbn. tauto.
    - cbn. eapply Forall_impl; [| exact Hl]. cbn.
      intros e [_ He]. apply He. exact Hspot. }
  clearbody s5.
  set (s6 := powerUpsPass s5).
  assert (H6 : settled (refs s6)).
  { subst s6. unfold powerUpsPass.
    destruct (filter_mut_Forall powerUpOK powerUpOK
                (fun s => settled (refs s)) powerUpStep
                powerUpStep_settled (powerUps (refs s5)) s5) as [Hl Hs];
      [apply H5 | exact H5 |].
    destruct (filter_mut powerUpStep _ _) as [l s']. cbn [fst snd] in *.
    destruct Hs as [(Hp & Hb & He & _ & Hx) Hclear].
    split; [| exact Hclear].
    split; [exact Hp |]. split; [exact Hb |]. split; [exact He |].
    split; [exact Hl | exact Hx]. }
  clearbody s6.
  set (s7 := bulletsPass tape s6).
  assert (H7 : settled (refs s7)).
  { subst s7. unfold bulletsPass.
    destruct (filter_mut_Forall bulletOK bulletOK
                (fun s => settled (refs s)) (bulletStep tape)
                (bulletStep_settled tape) (bullets (refs s6)) s6) as [Hl Hs];
      [apply H6 | exact H6 |].
    destruct (filter_mut (bulletStep tape) _ _) as [l s']. cbn [fst snd] in *.
    destruct Hs as [(Hp & _ & Hrest) Hclear].
    split; [| exact Hclear]. split; [exact Hp |].
    split; [exact Hl | exact Hrest]. }
  clearbody s7.
  (* the explosions grow and fade *)
  unfold explosionsPass.
  destruct (filter_mut_Forall explosionOK explosionOK
              (fun s => settled (refs s)) explosionStep
              (fun x s Hx Hs => conj Hs (explosionStep_OK x s Hx))
              (explosions (refs s7)) s7) as [Hl Hs];
    [apply H7 | exact H7 |].
  destruct (filter_mut explosionStep _ _) as [l s']. cbn [fst snd] in *.
  destruct Hs as [(Hp & Hb & He & Hu & _) Hclear].
  split; [| exact Hclear].
  split; [exact Hp |]. split; [exact Hb |]. split; [exact He |].
  split; [exact Hu | exact Hl].
Qed.

Lemma settled_step (tape : nat -> Z) (g : Game) (e : Event) :
  settled (world g) -> settled (world (step tape g e)).
Proof.
  intro H. destruct e as [| timestamp keys]; cbn [step].
  - unfold startGame, commit. cbn.
    split; [| constructor].
    split; [exact initialPlayer_OK |]. repeat split; constructor.
  - destruct (gameState (hooks g)) eqn:Hs;
      try (rewrite tick_idle by congruence; exact H).
    unfold tick, commit.
    destruct (fold_left apply_update _ _) as [h' sent']. cbn [world].
    apply updateGame_settles; [exact Hs | apply H].
Qed.

Lemma settled_run (tape : nat -> Z) (events : list Event) :
  settled (world (run tape events)).
Proof.
  unfold run.
  assert (H0 : settled (world initialGame)).
  { split; [| constructor].
    split; [exact initialPlayer_OK |]. repeat split; constructor. }
  revert H0. generalize initialGame.
  induction events as [| e events IH]; intros g Hg; cbn [fold_left].
  - exact Hg.
  - apply IH, settled_step, Hg.
Qed.

(** X1: along every run the player keeps its size (50 by 50) and speed (6)
    and stays on the canvas: x between 0 and 550, y between 0 and 750. *)
Theorem player_stays_on_canvas (tape : nat -> Z) (events : list Event) :
  Player.width (player (world (run tape events))) = 50 /\
  Player.height (player (world (run tape events))) = 50 /\
  Player.speed (player (world (run tape events))) = 6 /\
  0 <= Player.x (player (world (run tape events))) <= 550 /\
  0 <= Player.y (player (world (run tape events))) <= 750.
Proof.
  destruct (settled_run tape events)
    as [((Hw & Hh & Hs & Hx & Hy & _) & _) _].
  rewrite Hw in Hx. rewrite Hh in Hy. unfold CANVAS_WIDTH, CANVAS_HEIGHT in *.
  repeat split; try assumption; lra.
Qed.

(** X2: along every run each bullet in flight has speed 10, a size between
    1 and 2 with width 6, height 12 and damage 10 times that size (so a
    damage between 10 and 20), and has not yet left the canvas by the top
    ([y > -height]). *)
Theorem bullets_in_flight (tape : nat -> Z) (events : list Event) :
  Forall (fun b =>
            Bullet.speed b = 10 /\
            1 <= Bullet.size b <= 2 /\
            Bullet.width b = 6 * Bullet.size b /\
            Bullet.height b = 12 * Bullet.size b /\
            Bullet.damage b = 10 * Bullet.size b /\
            10 <= Bullet.damage b <= 20 /\
            - Bullet.height b < Bullet.y b <= 750)
         (bullets (world (run tape events))).
Proof.
  destruct (settled_run tape events) as [(_ & Hb & _) _].
  eapply Forall_impl; [| exact Hb]. cbn.
  intros b (Hs & Hz & Hw & Hh & Hd & Hy).
  unfold CANVAS_HEIGHT in Hy.
  repeat split; try assumption; try tauto; try (rewrite Hd; lra); lra.
Qed.

(** X3: along every run each enemy of the collection is alive
    ([0 < health <= maxHealth]), has the width, height, maximal health and
    speed range of its kind (40/40/20 and 2 to 3.5 for small, 60/60/40 and
    1.5 to 2 for medium, 80/80/80 and 1 for large; the ends of the ranges
    included), lies within the width of the canvas, and is between its
    spawning line [y = -height] and the line [y = 800 + height] below
    which it is dropped. *)
Theorem enemies_alive_and_shaped (tape : nat -> Z) (events : list Event) :
  Forall (fun e =>
            match Enemy.type e with
            | small =>
                Enemy.width e = 40 /\ Enemy.height e = 40 /\
                Enemy.maxHealth e = 20 /\ 2 <= Enemy.speed e <= 3.5
            | medium =>
                Enemy.width e = 60 /\ Enemy.height e = 60 /\
                Enemy.maxHealth e = 40 /\ 1.5 <= Enemy.speed e <= 2
            | large =>
                Enemy.width e = 80 /\ Enemy.height e = 80 /\
                Enemy.maxHealth e = 80 /\ Enemy.speed e == 1
            end /\
            0 <= Enemy.x e /\ Enemy.x e + Enemy.width e < 600 /\
            0 < Enemy.health e <= Enemy.maxHealth e /\
            - Enemy.height e <= Enemy.y e < 800 + Enemy.height e)
         (enemies (world (run tape events))).
Proof.
  destruct (settled_run tape events) as [(_ & _ & He & _) _].
  eapply Forall_impl; [| exact He]. cbn.
  intros e ([Hkind Hx] & Halive & Hy).
  unfold CANVAS_WIDTH, CANVAS_HEIGHT in *.
  split; [| repeat split; try tauto; lra].
  destruct (Enemy.type e); repeat split; try tauto.
  destruct Hkind as (_ & _ & _ & H1 & H2). apply Qle_antisym; assumption.
Qed.

(** X4: between two frames no enemy of the collection intersects the
    player: the enemy pass removes every enemy on the player, and neither
    moves afterwards. *)
Theorem no_enemy_on_the_player (tape : nat -> Z) (events : list Event) :
  Forall (fun e => hitsPlayer (player (world (run tape events))) e = false)
         (enemies (world (run tape events))).
Proof. apply settled_run. Qed.

(** X5: along every run each explosion has an opacity above 0 and at most
    1 and a radius of 3 times a whole number of passes, at most 33: the
    radius is one of 0, 3, ..., 99 and so can exceed the [maxRadius] of
    the explosion (50 after a collision, the width of the enemy after a
    kill), which plays no part. *)
Theorem explosion_radius_counts_passes
        (tape : nat -> Z) (events : list Event) :
  Forall (fun x =>
            0 < Explosion.opacity x <= 1 /\
            (exists k : nat,
                (k <= 33)%nat /\ Explosion.radius x == 3 * of_nat k) /\
            0 <= Explosion.radius x <= 99)
         (explosions (world (run tape events))).
Proof.
  destruct (settled_run tape events) as [(_ & _ & _ & _ & Hx) _].
  eapply Forall_impl; [| exact Hx]. cbn.
  intros x (k & Hk & Hr & Ho).
  pose proof (of_nat_nonneg k) as H0.
  pose proof (of_nat_le k 33 Hk) as H33. change (of_nat 33) with 33 in H33.
  split; [rewrite Ho; lra |].
  split; [exists k; split; [exact Hk | exact Hr] |].
  rewrite Hr. lra.
Qed.

(** ** The score *)

Lemma tallies_refl (s : Sim) : tallies s s.
Proof. exists []. rewrite app_nil_r. auto. Qed.

Lemma tallies_trans (a b c : Sim) : tallies a b -> tallies b c -> tallies a c.
Proof.
  intros (q1 & H1 & B1) (q2 & H2 & B2). exists (q1 ++ q2).
  rewrite H2, H1, app_assoc, forallb_app, B1, B2. auto.
Qed.

Lemma tallies_same (s s' : Sim) : queue s' = queue s -> tallies s s'.
Proof. intro H. exists []. rewrite app_nil_r. auto. Qed.

Lemma points_scoring (type : EnemyType) : scoring (AddScore (points type)) = true.
Proof. destruct type; reflexivity. Qed.

Lemma enemyStep_tallies (tape : nat -> Z) (enemy : Enemy.t) (s : Sim) :
  tallies s (snd (enemyStep tape enemy s)).
Proof.
  unfold enemyStep. destruct (hitsPlayer _ _); [| apply tallies_refl].
  eexists. split; [reflexivity | reflexivity].
Qed.

Lemma powerUpStep_tallies (powerUp : PowerUp.t) (s : Sim) :
  tallies s (snd (powerUpStep powerUp s)).
Proof.
  unfold powerUpStep. destruct (picksUp _ _); apply tallies_same; reflexivity.
Qed.

Lemma hitStep_tallies (tape : nat -> Z) (bullet : Bullet.t)
      (enemy : Enemy.t) (st : bool * Sim) :
  tallies (snd st) (snd (snd (hitStep tape bullet enemy st))).
Proof.
  destruct st as [hit s]. unfold hitStep.
  destruct (hitsEnemy _ _); [| apply tallies_refl].
  cbn [Enemy.health Enemy.set_health].
  destruct (leb _ 0); [| apply tallies_refl].
  eexists. split; [reflexivity |]. cbn [forallb Enemy.type Enemy.set_health].
  rewrite points_scoring. reflexivity.
Qed.

Lemma bulletStep_tallies (tape : nat -> Z) (bullet : Bullet.t) (s : Sim) :
  tallies s (snd (bulletStep tape bullet s)).
Proof.
  unfold bulletStep.
  pose proof
       (filter_mut_preorder
          (fun a b : bool * Sim => tallies (snd a) (snd b))
          (hitStep tape bullet)
          (fun st => tallies_refl (snd st))
          (fun a b c => tallies_trans (snd a) (snd b) (snd c))
          (hitStep_tallies tape bullet)
          (enemies (refs s)) (false, s)) as H.
  destruct (filter_mut _ _ _) as [survivors [hit s1]]. cbn [snd] in *.
  eapply tallies_trans; [exact H | apply tallies_same; reflexivity].
Qed.

Lemma pass_tallies {A : Type} (f : A -> Sim -> option A * Sim)
      (l : list A) (set : list A -> Refs -> Refs) (s : Sim) :
  (forall a s, tallies s (snd (f a s))) ->
  tallies s (let '(l', s') := filter_mut f l s in on_refs (set l') s').
Proof.
  intro Hstep.
  pose proof (filter_mut_preorder tallies f tallies_refl tallies_trans
                                  Hstep l s) as H.
  destruct (filter_mut f l s) as [l' s']. cbn [snd] in H.
  eapply tallies_trans; [exact H | apply tallies_same; reflexivity].
Qed.

Lemma updateGame_tallies (tape : nat -> Z) (timestamp : number)
      (keys : string -> bool) (h : Hooks) (r : Refs) :
  gameState h = playing ->
  exists s,
    updateGame tape timestamp keys h r = gameOverCheck (score h) s /\
    tallies (mkSim r []) s.
Proof.
  intro Hplay. unfold updateGame. rewrite Hplay.
  eexists. split; [reflexivity |].
  unfold explosionsPass, bulletsPass, powerUpsPass, enemiesPass, bulletsMove.
  eapply tallies_trans;
    [| apply pass_tallies; intros a s0; apply tallies_refl].
  eapply tallies_trans;
    [| apply pass_tallies; exact (bulletStep_tallies tape)].
  eapply tallies_trans; [| apply pass_tallies; exact powerUpStep_tallies].
  eapply tallies_trans;
    [| apply pass_tallies; exact (enemyStep_tallies tape)].
  eapply tallies_trans; [| apply tallies_same; reflexivity].
  eapply tallies_trans;
    [| apply pass_tallies; intros a s0; apply tallies_refl].
  apply tallies_same. reflexivity.
Qed.

Lemma gains_nonneg (q : list Update) :
  forallb scoring q = true -> 0 <= gains q.
Proof.
  induction q as [| u q IH]; cbn; [intros _; apply Qle_refl |].
  intro H. apply andb_true_iff in H. destruct H as [Hu Hq].
  specialize (IH Hq). destruct u; try discriminate; try exact IH.
  apply orb_true_iff in Hu. destruct Hu as [Hu | Hu];
    [apply orb_true_iff in Hu; destruct Hu as [Hu | Hu] |];
    apply Qeq_bool_iff in Hu; rewrite Hu; lra.
Qed.

Lemma commit_scoring (q : list Update) :
  forallb scoring q = true ->
  forall h sent,
    gameState (fst (fold_left apply_update q (h, sent))) = gameState h /\
    highScore (fst (fold_left apply_update q (h, sent))) = highScore h /\
    isNewRecord (fst (fold_left apply_update q (h, sent))) = isNewRecord h /\
    score (fst (fold_left apply_update q (h, sent))) == score h + gains q /\
    snd (fold_left apply_update q (h, sent)) = sent.
Proof.
  induction q as [| u q IH]; intros Hq h sent; cbn [fold_left gains].
  - cbn. repeat split; try reflexivity. lra.
  - cbn [forallb] in Hq. apply andb_true_iff in Hq. destruct Hq as [Hu Hq].
    destruct u; try discriminate; cbn [apply_update];
      match goal with
      | |- context [fold_left apply_update q (?h', sent)] =>
          destruct (IH Hq h' sent) as (H1 & H2 & H3 & H4 & H5)
      end; cbn in H1, H2, H3, H4;
      repeat split; try assumption.
    rewrite H4. lra.
Qed.

(** What a frame does to the hooks and to the posted scores. *)
Lemma tick_hooks (tape : nat -> Z) (timestamp : number)
      (keys : string -> bool) (g : Game) :
  gameState (hooks g) = playing ->
  exists gain,
    0 <= gain /\
    score (hooks (tick tape timestamp keys g)) == score (hooks g) + gain /\
    highScore (hooks (tick tape timestamp keys g)) = highScore (hooks g) /\
    isNewRecord (hooks (tick tape timestamp keys g)) = isNewRecord (hooks g) /\
    (posted (tick tape timestamp keys g) = posted g \/
     posted (tick tape timestamp keys g) = posted g ++ [score (hooks g)]).
Proof.
  intro Hplay. unfold tick.
  destruct (updateGame_tallies tape timestamp keys (hooks g) (world g) Hplay)
    as [s [E (q & Hq & Hb)]].
  rewrite E. cbn [queue app] in Hq.
  destruct (commit_scoring q Hb (hooks g) (posted g))
    as (H1 & H2 & H3 & H4 & H5).
  exists (gains q). split; [apply gains_nonneg, Hb |].
  destruct (gameOverCheck_cases (score (hooks g)) s) as [[_ ->] | [_ ->]];
    unfold commit; cbn [queue refs]; rewrite Hq.
  - destruct (fold_left apply_update q (hooks g, posted g)) as [h' sent'].
    cbn [fst snd hooks posted] in *. auto.
  - rewrite fold_left_app.
    destruct (fold_left apply_update q (hooks g, posted g)) as [h' sent'].
    cbn in *. subst sent'. auto.
Qed.

Lemma run_snoc (tape : nat -> Z) (events : list Event) (e : Event) :
  run tape (events ++ [e]) = step tape (run tape events) e.
Proof. unfold run. rewrite fold_left_app. reflexivity. Qed.

Lemma clicks_snoc (events : list Event) (e : Event) :
  clicks (events ++ [e]) =
    (clicks events + match e with Click => 1 | _ => 0 end)%nat.
Proof.
  unfold clicks. rewrite filter_app, length_app.
  destruct e; reflexivity.
Qed.

(** The state machine along a run. *)
Lemma run_ledger (tape : nat -> Z) (events : list Event) :
  0 <= score (hooks (run tape events)) /\
  Forall (fun v => 0 <= v) (posted (run tape events)) /\
  gameState (hooks (run tape events)) <> paused /\
  (gameState (hooks (run tape events)) = start <-> clicks events = 0%nat) /\
  (List.length (posted (run tape events))
   + pending (gameState (hooks (run tape events))) <= clicks events)%nat /\
  (gameState (hooks (run tape events)) = gameover ->
   Player.health (player (world (run tape events))) <= 0).
Proof.
  induction events as [| e events IH] using rev_ind.
  - cbn. split; [apply Qle_refl |]. split; [constructor |].
    split; [discriminate |]. split; [tauto |]. split; [lia | discriminate].
  - rewrite run_snoc, clicks_snoc.
    destruct IH as (Hscore & Hposted & Hpause & Hstart & Hcount & Hover).
    destruct e as [| timestamp keys]; cbn [step].
    + unfold startGame, commit. cbn.
      split; [apply Qle_refl |]. split; [exact Hposted |].
      split; [discriminate |]. split; [split; [discriminate | lia] |].
      split; [lia | discriminate].
    + rewrite Nat.add_0_r.
      destruct (gameState (hooks (run tape events))) eqn:Hs;
        try (rewrite tick_idle by congruence; rewrite Hs;
             split; [exact Hscore |]; split; [exact Hposted |];
             split; [exact Hpause |]; split; [exact Hstart |];
             split; [exact Hcount | exact Hover]).
      destruct (tick_hooks tape timestamp keys _ Hs)
        as (gain & Hgain & Hsc & _).
      destruct (tick_playing tape timestamp keys _ Hs)
        as (_ & _ & [(Hpos & Hst & Hsent) | (Hneg & Hst & Hsent)]);
        rewrite Hst, Hsent.
      * split; [rewrite Hsc; lra |]. split; [exact Hposted |].
        split; [discriminate |]. split; [| split; [exact Hcount |]].
        -- split; [discriminate |]. intro H. apply Hstart in H. discriminate.
        -- discriminate.
      * split; [rewrite Hsc; lra |]. split.
        { apply Forall_app. split; [exact Hposted |].
          constructor; [exact Hscore | constructor]. }
        split; [discriminate |]. split.
        { split; [discriminate |]. intro H. apply Hstart in H.
          discriminate. }
        split; [| intros _; exact Hneg].
        rewrite length_app. cbn [List.length pending] in *. lia.
Qed.

(** X6: a frame never lowers the score, and never touches the high score
    or the new-record flag, whatever the state it starts from. *)
Theorem score_never_decreases (tape : nat -> Z) (timestamp : number)
        (keys : string -> bool) (g : Game) :
  score (hooks g) <= score (hooks (tick tape timestamp keys g)) /\
  highScore (hooks (tick tape timestamp keys g)) = highScore (hooks g) /\
  isNewRecord (hooks (tick tape timestamp keys g)) = isNewRecord (hooks g).
Proof.
  destruct (gameState (hooks g)) eqn:Hs;
    try (rewrite tick_idle by congruence;
         split; [apply Qle_refl | split; reflexivity]).
  destruct (tick_hooks tape timestamp keys g Hs)
    as (gain & Hgain & Hsc & Hhigh & Hnew & _).
  split; [rewrite Hsc; lra | split; assumption].
Qed.

(** X7: along every run the score is not negative and every score posted
    to the route is not negative, so that the route, whatever its store,
    never answers it with the status 400 of an invalid score. *)
Theorem posted_scores_pass_validation (tape : nat -> Z) (events : list Event) :
  0 <= score (hooks (run tape events)) /\
  Forall (fun v =>
            0 <= v /\
            forall db,
              fst (Route.POST
                     (Some (Route.JObject [("score"%string, Route.JNumber v)]))
                     db)
              <> Route.Failed 400 "Invalid score")
         (posted (run tape events)).
Proof.
  destruct (run_ledger tape events) as (Hscore & Hposted & _).
  split; [exact Hscore |].
  eapply Forall_impl; [| exact Hposted]. cbn. intros v Hv.
  split; [exact Hv |]. intro db.
  unfold Route.POST. cbn. apply ltb_ge in Hv. rewrite Hv.
  unfold Route.findFirst, Route.create.
  destruct (Route.online db); [| discriminate].
  destruct (Route.greatest (Route.gameScore db)) as [m |];
    [destruct (gtb v (Route.score m)) |]; discriminate.
Qed.

(** X8: along every run the state is never [paused]; it is [start] exactly
    as long as the start button has not been clicked; the scores posted,
    plus one for a game in play, are at most as many as the clicks (one
    post per game at most); and a game that is over has a health of 0 or
    less. *)
Theorem game_over_ledger (tape : nat -> Z) (events : list Event) :
  gameState (hooks (run tape events)) <> paused /\
  (gameState (hooks (run tape events)) = start <-> clicks events = 0%nat) /\
  (List.length (posted (run tape events))
   + pending (gameState (hooks (run tape events))) <= clicks events)%nat /\
  (gameState (hooks (run tape events)) = gameover ->
   Player.health (player (world (run tape events))) <= 0).
Proof. apply run_ledger. Qed.

(** X9: a frame outside of play changes nothing at all.  A frame of play
    ends either with a positive health, still in play and with nothing
    posted, or with a health of 0 or less, the game over and exactly one
    score posted: the score of the render the frame started from. *)
Theorem frame_outcome (tape : nat -> Z) (timestamp : number)
        (keys : string -> bool) (g : Game) :
  (gameState (hooks g) <> playing -> tick tape timestamp keys g = g) /\
  (gameState (hooks g) = playing ->
   (0 < Player.health (player (world (tick tape timestamp keys g))) /\
    gameState (hooks (tick tape timestamp keys g)) = playing /\
    posted (tick tape timestamp keys g) = posted g)
   \/
   (Player.health (player (world (tick tape timestamp keys g))) <= 0 /\
    gameState (hooks (tick tape timestamp keys g)) = gameover /\
    posted (tick tape timestamp keys g) = posted g ++ [score (hooks g)])).
Proof.
  split; [apply tick_idle |].
  intro Hs. apply (tick_playing tape timestamp keys g Hs).
Qed.

(** A frame on the start screen, and the first frame of a game. *)
Lemma frame_outcome_first :
  gameState (hooks initialGame) <> playing /\
  tick (tape_of []) 16 noKeys initialGame = initialGame /\
  gameState (hooks (startGame initialGame)) = playing /\
  gameState (hooks (tick (tape_of []) 16 noKeys (startGame initialGame)))
  = playing /\
  posted (tick (tape_of []) 16 noKeys (startGame initialGame)) = [].
Proof.
  assert (H1 : gameState (hooks initialGame) <> playing) by discriminate.
  assert (H2 : gameState (hooks (startGame initialGame)) = playing)
    by reflexivity.
  destruct (frame_outcome (tape_of []) 16 noKeys initialGame) as [Hidle _].
  destruct (frame_outcome (tape_of []) 16 noKeys (startGame initialGame))
    as [_ Hplay].
  split; [exact H1 |]. split; [exact (Hidle H1) |]. split; [exact H2 |].
  destruct (Hplay H2) as [(_ & Hs & Hp) | (Hneg & _)].
  - split; [exact Hs | exact Hp].
  - exfalso. revert Hneg. vm_compute. intro H. apply H. reflexivity.
Defined.

(** ** Spawning enemies *)

Lemma spawnEnemy_appends (tape : nat -> Z) (r : Refs) :
  exists e,
    enemies (spawnEnemy tape r) = enemies r ++ [e] /\
    Enemy.type e =
      (if ltb (fst (Math_random tape r)) 0.6 then small
       else if ltb (fst (Math_random tape r)) 0.9 then medium else large) /\
    Enemy.y e = - Enemy.height e /\
    Enemy.health e = Enemy.maxHealth e /\
    shaped e /\
    player (spawnEnemy tape r) = player r /\
    bullets (spawnEnemy tape r) = bullets r /\
    powerUps (spawnEnemy tape r) = powerUps r /\
    explosions (spawnEnemy tape r) = explosions r.
Proof.
  unfold spawnEnemy.
  pose proof (Math_random_range tape r) as H1.
  destruct (Math_random tape r) as [type r1] eqn:E1.
  pose proof (Math_random_range tape r1) as H2.
  destruct (Math_random tape r1) as [rx r2] eqn:E2.
  pose proof (Math_random_range tape r2) as H3.
  destruct (Math_random tape r2) as [rs r3] eqn:E3.
  unfold Math_random in E1, E2, E3.
  injection E1 as _ <-. injection E2 as _ <-. injection E3 as _ <-.
  cbn [fst] in *.
  destruct (ltb type 0.6); [| destruct (ltb type 0.9)];
    eexists; (split; [reflexivity |]); cbn;
    (split; [reflexivity |]); (split; [reflexivity |]);
    (split; [reflexivity |]); (split; [| repeat split]);
    unfold shaped, CANVAS_WIDTH; cbn; repeat split; try reflexivity; lra.
Qed.





(** X11: [spawnEnemy] appends exactly one enemy and touches nothing else
    but the random tape.  Its kind is small when the first draw is below
    the double that the literal 0.6 denotes, medium when the draw is at
    least 0.6 and below 0.9, and large when it is at least 0.9; on the one
    draw left out, that double itself, the source gives a medium enemy
    ([kind_binary64]) and exact arithmetic a small one.  The enemy sits
    just above the canvas ([y = -height]) at full health, with the shape
    of its kind and within the width of the canvas. *)
Theorem spawnEnemy_kind (tape : nat -> Z) (r : Refs) :
  exists e,
    enemies (spawnEnemy tape r) = enemies r ++ [e] /\
    (fst (Math_random tape r) < below_six_tenths -> Enemy.type e = small) /\
    (0.6 <= fst (Math_random tape r) -> fst (Math_random tape r) < 0.9 ->
     Enemy.type e = medium) /\
    (0.9 <= fst (Math_random tape r) -> Enemy.type e = large) /\
    Enemy.y e = - Enemy.height e /\
    Enemy.health e = Enemy.maxHealth e /\
    shaped e /\
    player (spawnEnemy tape r) = player r /\
    bullets (spawnEnemy tape r) = bullets r /\
    powerUps (spawnEnemy tape r) = powerUps r /\
    explosions (spawnEnemy tape r) = explosions r.
Proof.
  destruct (spawnEnemy_appends tape r) as (e & He & Htype & Hrest).
  exists e. split; [exact He |].
  split; [| split; [| split; [| exact Hrest]]]; rewrite Htype.
  - intro H. unfold below_six_tenths in H.
    assert (H6 : ltb (fst (Math_random tape r)) 0.6 = true)
      by (apply ltb_lt; lra).
    rewrite H6. reflexivity.
  - intros H6 H9. apply ltb_ge in H6. apply ltb_lt in H9.
    rewrite H6, H9. reflexivity.
  - intro H9.
    assert (H6 : ltb (fst (Math_random tape r)) 0.6 = false)
      by (apply ltb_ge; lra).
    apply ltb_ge in H9. rewrite H6, H9. reflexivity.
Qed.

(** ** What a bullet's kills give *)

Lemma hitStep_awards (tape : nat -> Z) (bullet : Bullet.t)
      (es : list Enemy.t) :
  forall (hit : bool) (s : Sim),
    explosions (refs (snd (snd (filter_mut (hitStep tape bullet) es (hit, s)))))
    = explosions (refs s) ++ map blast (filter (destroyed bullet) es) /\
    queue (snd (snd (filter_mut (hitStep tape bullet) es (hit, s))))
    = queue s ++ map award (filter (destroyed bullet) es).
Proof.
  induction es as [| e es IH]; intros hit s.
  - cbn. rewrite !app_nil_r. auto.
  - rewrite filter_mut_cons.
    destruct (hitStep tape bullet e (hit, s)) as [kept [h1 s1]] eqn:E.
    specialize (IH h1 s1).
    destruct (filter_mut (hitStep tape bullet) es (h1, s1))
      as [rest [hit' s2]].
    cbn [fst snd] in IH |- *. destruct IH as [Hx Hq]. rewrite Hx, Hq.
    cbn [filter].
    assert (Hd : destroyed bullet e =
                 hitsEnemy bullet e
                 && leb (Enemy.health e - Bullet.damage bullet) 0)
      by reflexivity.
    unfold hitStep in E.
    destruct (hitsEnemy bullet e) eqn:Hhit.
    + cbn [Enemy.health Enemy.set_health] in E.
      destruct (leb (Enemy.health e - Bullet.damage bullet) 0) eqn:Hdead;
        injection E as <- <- <-; rewrite Hd; cbn [andb map].
      * cbn [emit on_refs refs queue].
        match goal with
        | |- context [spawnPowerUp tape ?x ?y ?r] =>
            destruct (spawnPowerUp_frame tape x y r) as (_ & _ & _ & ->)
        end.
        cbn [explosions set_explosions]. rewrite <- !app_assoc.
        split; reflexivity.
      * auto.
    + injection E as <- <- <-. rewrite Hd. cbn [andb]. auto.
Qed.

(** X12: in the bullet pass, each enemy that a bullet destroys leaves
    exactly one explosion at its centre, of maximal radius the enemy's
    width, and awards its points (10, 25 or 50 by kind) once; an enemy that
    is only wounded, or missed, leaves and awards nothing; the player is
    not touched. *)
Theorem bullet_kill_awards (tape : nat -> Z) (bullet : Bullet.t) (s : Sim) :
  explosions (refs (snd (bulletStep tape bullet s)))
  = explosions (refs s)
    ++ map blast (filter (destroyed bullet) (enemies (refs s))) /\
  queue (snd (bulletStep tape bullet s))
  = queue s ++ map award (filter (destroyed bullet) (enemies (refs s))) /\
  player (refs (snd (bulletStep tape bullet s))) = player (refs s).
Proof.
  unfold bulletStep.
  pose proof (hitStep_awards tape bullet (enemies (refs s)) false s) as [Hx Hq].
  pose proof (hitStep_pass tape bullet (enemies (refs s)) false s)
    as (_ & _ & Hp & _).
  destruct (filter_mut _ _ _) as [survivors [hit s1]].
  cbn [fst snd] in *. cbn. auto.
Qed.

(** ** Picking power-ups up *)

Lemma picksUp_spot (p q : Player.t) (u : PowerUp.t) :
  spot p = spot q -> picksUp p u = picksUp q u.
Proof.
  unfold spot, picksUp. intro H. injection H as -> -> -> ->. reflexivity.
Qed.

Lemma powerUpStep_pass (p : Player.t) (ups : list PowerUp.t) :
  forall s : Sim,
    spot (player (refs s)) = spot p ->
    fst (filter_mut powerUpStep ups s)
    = filter inSight (filter (fun u => negb (picksUp p u)) (map fallen ups)) /\
    player (refs (snd (filter_mut powerUpStep ups s)))
    = pickAll (filter (picksUp p) (map fallen ups)) (player (refs s)) /\
    bullets (refs (snd (filter_mut powerUpStep ups s))) = bullets (refs s) /\
    enemies (refs (snd (filter_mut powerUpStep ups s))) = enemies (refs s) /\
    explosions (refs (snd (filter_mut powerUpStep ups s)))
    = explosions (refs s) /\
    cursor (refs (snd (filter_mut powerUpStep ups s))) = cursor (refs s) /\
    queue (snd (filter_mut powerUpStep ups s)) = queue s.
Proof.
  induction ups as [| u ups IH]; intros s Hspot.
  - cbn. repeat split.
  - rewrite filter_mut_cons. cbn [map filter].
    assert (Hsame : picksUp (player (refs s)) (fallen u) = picksUp p (fallen u))
      by (apply picksUp_spot, Hspot).
    destruct (powerUpStep u s) as [kept s1] eqn:E.
    unfold powerUpStep in E. fold (fallen u) in E. rewrite Hsame in E.
    fold (inSight (fallen u)) in E.
    destruct (picksUp p (fallen u)) eqn:Hpick; injection E as <- <-.
    + match goal with
      | |- context [filter_mut powerUpStep ups ?s1] =>
          destruct (IH s1) as (Hk & Hp & Hb & He & Hx & Hc & Hq)
      end.
      { cbn. rewrite applyPowerUp_spot. exact Hspot. }
      destruct (filter_mut powerUpStep ups _) as [rest s2].
      cbn [fst snd negb] in *. cbn in Hp, Hb, He, Hx, Hc, Hq.
      repeat split; assumption.
    + destruct (IH s Hspot) as (Hk & Hrest).
      destruct (filter_mut powerUpStep ups s) as [rest s2].
      cbn [fst snd negb filter] in *.
      split; [| exact Hrest].
      destruct (inSight (fallen u)); rewrite Hk; reflexivity.
Qed.

(** X13: the power-up pass moves every power-up down by its speed; all
    those then on the player are picked up in that same pass, each applied
    once and in collection order, and removed; of the others, those still
    above [y = 800 + height] are kept.  The pass changes nothing but the
    player and the power-ups, and queues nothing. *)
Theorem powerUps_pass_picks_all (s : Sim) :
  powerUps (refs (powerUpsPass s))
  = filter inSight
           (filter (fun u => negb (picksUp (player (refs s)) u))
                   (map fallen (powerUps (refs s)))) /\
  player (refs (powerUpsPass s))
  = pickAll (filter (picksUp (player (refs s))) (map fallen (powerUps (refs s))))
            (player (refs s)) /\
  bullets (refs (powerUpsPass s)) = bullets (refs s) /\
  enemies (refs (powerUpsPass s)) = enemies (refs s) /\
  explosions (refs (powerUpsPass s)) = explosions (refs s) /\
  cursor (refs (powerUpsPass s)) = cursor (refs s) /\
  queue (powerUpsPass s) = queue s.
Proof.
  unfold powerUpsPass.
  destruct (powerUpStep_pass (player (refs s)) (powerUps (refs s)) s eq_refl)
    as (Hk & Hp & Hb & He & Hx & Hc & Hq).
  destruct (filter_mut powerUpStep _ s) as [l s1]. cbn [fst snd] in *.
  cbn. repeat split; assumption.
Qed.

Lemma applyPowerUp_comm (a b : PowerUpType) (p : Player.t) :
  applyPowerUp a (applyPowerUp b p) = applyPowerUp b (applyPowerUp a p).
Proof. destruct a, b; reflexivity. Qed.

Lemma pickAll_perm (l l' : list PowerUp.t) :
  Permutation l l' -> forall p, pickAll l p = pickAll l' p.
Proof.
  induction 1 as [| u l l' _ IH | u v l | l l' l'' _ IH1 _ IH2]; intro p.
  - reflexivity.
  - cbn. apply IH.
  - cbn. rewrite applyPowerUp_comm. reflexivity.
  - rewrite IH1. apply IH2.
Qed.

(** X14: the effects of power-ups commute: the player that results from
    picking several power-ups up does not depend on their order. *)
Theorem pickups_commute (l l' : list PowerUp.t) (p : Player.t) :
  Permutation l l' -> pickAll l p = pickAll l' p.
Proof. intro H. apply pickAll_perm, H. Qed.

(** A size and a count power-up, in the two orders. *)
Lemma pickups_commute_sample :
  Permutation [PowerUp.mk 0 0 40 40 2 size; PowerUp.mk 0 0 40 40 2 count]
              [PowerUp.mk 0 0 40 40 2 count; PowerUp.mk 0 0 40 40 2 size] /\
  pickAll [PowerUp.mk 0 0 40 40 2 size; PowerUp.mk 0 0 40 40 2 count]
          initialPlayer
  = pickAll [PowerUp.mk 0 0 40 40 2 count; PowerUp.mk 0 0 40 40 2 size]
            initialPlayer.
Proof.
  assert (H : Permutation
                [PowerUp.mk 0 0 40 40 2 size; PowerUp.mk 0 0 40 40 2 count]
                [PowerUp.mk 0 0 40 40 2 count; PowerUp.mk 0 0 40 40 2 size])
    by apply perm_swap.
  exact (conj H (pickups_commute _ _ initialPlayer H)).
Defined.

(** ** Moving against a wall *)

(** X15: opposite keys do not always cancel.  With left and right both
    held, the player first steps left (stopping at the wall) and then
    right: it stays where it is when it is at least one step (6) from the
    left wall, and is otherwise pushed to x = 6.  The same holds for up and
    down with the top wall. *)
Theorem opposite_keys (keys : string -> bool) (p : Player.t) :
  playerOK p ->
  (held keys "ArrowLeft" "KeyA" = true ->
   held keys "ArrowRight" "KeyD" = true ->
   Player.x (movePlayer keys p) == Qmax (Player.x p) 6) /\
  (held keys "ArrowUp" "KeyW" = true ->
   held keys "ArrowDown" "KeyS" = true ->
   Player.y (movePlayer keys p) == Qmax (Player.y p) 6).
Proof.
  intros (Hw & Hh & Hs & Hx & Hy & _).
  rewrite Hw in Hx. rewrite Hh in Hy.
  unfold CANVAS_WIDTH, CANVAS_HEIGHT in *.
  split; intros H1 H2; unfold movePlayer; rewrite H1, H2;
    repeat match goal with
           | |- context [held ?k ?a ?b] => destruct (held k a b)
           end;
    cbn; rewrite ?Hw, ?Hh, ?Hs;
    unfold CANVAS_WIDTH, CANVAS_HEIGHT;
    revert Hx Hy; generalize (Player.x p) (Player.y p); q_minmax.
Qed.

(** The player three pixels from the left wall, then in the middle. *)
Lemma opposite_keys_sample :
  playerOK (Player.set_x 3 initialPlayer) /\
  held (fun k => String.eqb k "KeyA" || String.eqb k "KeyD") "ArrowLeft" "KeyA"
  = true /\
  held (fun k => String.eqb k "KeyA" || String.eqb k "KeyD") "ArrowRight" "KeyD"
  = true /\
  Player.x (movePlayer (fun k => String.eqb k "KeyA" || String.eqb k "KeyD")
                       (Player.set_x 3 initialPlayer)) == 6 /\
  held (fun k => String.eqb k "KeyW" || String.eqb k "KeyS") "ArrowUp" "KeyW"
  = true /\
  held (fun k => String.eqb k "KeyW" || String.eqb k "KeyS") "ArrowDown" "KeyS"
  = true /\
  Player.y (movePlayer (fun k => String.eqb k "KeyW" || String.eqb k "KeyS")
                       (Player.set_x 3 initialPlayer)) == 700.
Proof.
  assert (H0 : playerOK (Player.set_x 3 initialPlayer)).
  { destruct initialPlayer_OK as (Hw & Hh & Hs & _ & Hy & Hr).
    unfold playerOK. cbn. repeat split; try reflexivity;
      try (vm_compute; discriminate).
    exists 1%nat. split; [lia | reflexivity]. }
  destruct (opposite_keys
              (fun k => String.eqb k "KeyA" || String.eqb k "KeyD")
              (Player.set_x 3 initialPlayer) H0) as [Hx _].
  destruct (opposite_keys
              (fun k => String.eqb k "KeyW" || String.eqb k "KeyS")
              (Player.set_x 3 initialPlayer) H0) as [_ Hy].
  split; [exact H0 |]. split; [reflexivity |]. split; [reflexivity |].
  split; [rewrite (Hx eq_refl eq_refl); reflexivity |].
  split; [reflexivity |]. split; [reflexivity |].
  rewrite (Hy eq_refl eq_refl). reflexivity.
Defined.

(** ** The life of an explosion *)

Lemma explosionsPass_one (e : Explosion.t) (s : Sim) :
  explosions (refs s) = [e] ->
  explosions (refs (explosionsPass s))
  = if gtb (Explosion.opacity e - 0.03) 0
    then [Explosion.mk (Explosion.x e) (Explosion.y e)
                       (Explosion.radius e + 3) (Explosion.maxRadius e)
                       (Explosion.opacity e - 0.03)]
    else [].
Proof.
  intro H. unfold explosionsPass. rewrite H. cbn.
  destruct (gtb _ 0); reflexivity.
Qed.

Lemma explosionsPass_none (s : Sim) :
  explosions (refs s) = [] -> explosions (refs (explosionsPass s)) = [].
Proof. intro H. unfold explosionsPass. rewrite H. reflexivity. Qed.

(** The life of one explosion in exact arithmetic. *)
Lemma explosion_life (x y m : number) (s : Sim) (k : nat) :
  explosions (refs s) = [Explosion.mk x y 0 m 1] ->
  ((k <= 33)%nat ->
   exists radius opacity,
     explosions (refs (Nat.iter k explosionsPass s))
     = [Explosion.mk x y radius m opacity] /\
     radius == 3 * of_nat k /\ opacity == 1 - 0.03 * of_nat k) /\
  ((33 < k)%nat -> explosions (refs (Nat.iter k explosionsPass s)) = []).
Proof.
  intro H0. induction k as [| k [IHle IHgt]].
  - split; [| lia]. intros _. exists 0, 1.
    split; [exact H0 |]. change (of_nat 0) with 0. split; lra.
  - rewrite Nat.iter_succ. split.
    + intro Hk. destruct IHle as (radius & opacity & He & Hr & Ho); [lia |].
      rewrite (explosionsPass_one _ _ He). cbn.
      pose proof (of_nat_le (S k) 33 Hk) as Hle.
      change (of_nat 33) with 33 in Hle. pose proof (of_nat_S k) as HS.
      assert (Hpos : gtb (opacity - 0.03) 0 = true) by (apply gtb_gt; lra).
      rewrite Hpos. do 2 eexists. split; [reflexivity |]. split; lra.
    + intro Hk. destruct (Nat.eq_dec k 33) as [-> | Hne].
      * destruct IHle as (radius & opacity & He & Hr & Ho); [lia |].
        rewrite (explosionsPass_one _ _ He). cbn.
        change (of_nat 33) with 33 in Ho.
        assert (Hneg : gtb (opacity - 0.03) 0 = false) by (apply gtb_le; lra).
        rewrite Hneg. reflexivity.
      * apply explosionsPass_none, IHgt. lia.
Qed.

(** X16: an explosion is kept for exactly 33 passes, whatever its
    [maxRadius]: after [k <= 33] passes it is still in the collection,
    where it was created, with a radius of [3 k] and an opacity above 0
    and at most 1; the 34th pass removes it.  It thus reaches a radius of
    99, also when its [maxRadius] is the 50 of a collision or the 40 of a
    small enemy.  The opacity is rounded at each pass in the doubles of
    the source, and the count is the same there: [Binary64.passes] keeps
    the explosion for 33 passes and not for more. *)
Theorem explosion_lasts_33_passes (x y m : number) (s : Sim) (k : nat) :
  explosions (refs s) = [Explosion.mk x y 0 m 1] ->
  ((k <= 33)%nat ->
   (exists radius opacity,
       explosions (refs (Nat.iter k explosionsPass s))
       = [Explosion.mk x y radius m opacity] /\
       radius == 3 * of_nat k /\ 0 < opacity <= 1) /\
   Binary64.passes k Binary64.fresh <> None) /\
  ((33 < k)%nat ->
   explosions (refs (Nat.iter k explosionsPass s)) = [] /\
   Binary64.passes k Binary64.fresh = None).
Proof.
  intro H0. destruct (explosion_life x y m s k H0) as [Hle Hgt]. split.
  - intro Hk. split.
    + destruct (Hle Hk) as (radius & opacity & He & Hr & Ho).
      exists radius, opacity. split; [exact He |]. split; [exact Hr |].
      pose proof (of_nat_nonneg k) as Hk0.
      pose proof (of_nat_le k 33 Hk) as Hk33.
      change (of_nat 33) with 33 in Hk33. rewrite Ho. lra.
    + destruct (Doubles.explosion_kept_binary64 k Hk) as (r' & o' & E & _).
      rewrite E. discriminate.
  - intro Hk. split;
      [exact (Hgt Hk) | exact (Doubles.explosion_gone_binary64 k Hk)].
Qed.

(** The explosion of a collision, after 33 and after 34 passes. *)
Lemma explosion_lasts_33_passes_sample :
  explosions
    (refs (mkSim (set_explosions [Explosion.mk 300 700 0 50 1] initialRefs) []))
  = [Explosion.mk 300 700 0 50 1] /\
  (33 <= 33)%nat /\
  map (fun e => Qred (Explosion.radius e))
      (explosions
         (refs (Nat.iter 33 explosionsPass
                  (mkSim (set_explosions [Explosion.mk 300 700 0 50 1]
                                         initialRefs) []))))
  = [99] /\
  (33 < 34)%nat /\
  explosions
    (refs (Nat.iter 34 explosionsPass
             (mkSim (set_explosions [Explosion.mk 300 700 0 50 1]
                                    initialRefs) [])))
  = [].
Proof.
  assert (H0 : explosions
                 (refs (mkSim (set_explosions [Explosion.mk 300 700 0 50 1]
                                              initialRefs) []))
               = [Explosion.mk 300 700 0 50 1]) by reflexivity.
  assert (H1 : (33 <= 33)%nat) by lia.
  assert (H2 : (33 < 34)%nat) by lia.
  destruct (explosion_lasts_33_passes 300 700 50 _ 33 H0) as [Hle _].
  destruct (explosion_lasts_33_passes 300 700 50 _ 34 H0) as [_ Hgt].
  split; [exact H0 |]. split; [exact H1 |]. split; [| split; [exact H2 |]].
  - destruct (Hle H1) as [(radius & opacity & He & Hr & _) _].
    rewrite He. cbn [map Explosion.radius].
    rewrite (Qred_complete _ _ Hr). reflexivity.
  - exact (proj1 (Hgt H2)).
Defined.

(** ** The layout of a volley *)

(** X17: for a player at a whole position whose bullet size is 1 (the
    default) or 2 (the cap): when the cooldown has elapsed and
    [bulletCount] is the whole number [n], bullet number [i < n] of the
    volley starts at the player's height with speed 10 and has its left
    edge at [mid + width * (1.5 i - (n - 1) / 2)], where [mid] is the
    player's horizontal middle and [width] the bullet's width.  A single
    bullet thus has its left edge, not its centre, on the player's middle,
    and the bullets of a volley are 1.5 widths apart.  At these sizes the
    doubles of the source compute the edge without rounding
    ([volley_binary64]); at the sizes in between, 1.3, 1.6 and 1.9, they
    round, and the edge can be one unit in the last place off this
    form. *)
Theorem volley_layout (r : Refs) (timestamp : number) (n i : nat) (z : Z) :
  Player.x (player r) == inject_Z z ->
  Player.bulletSize (player r) == 1 \/ Player.bulletSize (player r) == 2 ->
  Player.fireRate (player r) <= timestamp - Player.lastShot (player r) ->
  Player.bulletCount (player r) == of_nat n ->
  (i < n)%nat ->
  exists b,
    nth_error (bullets (shootBullet timestamp r)) (List.length (bullets r) + i)
    = Some b /\
    Bullet.x b ==
      Player.x (player r) + Player.width (player r) / 2
      + Bullet.width b * (1.5 * of_nat i - (of_nat n - 1) / 2) /\
    Bullet.y b = Player.y (player r) /\
    Bullet.speed b = 10 /\
    Bullet.size b = Player.bulletSize (player r).
Proof.
  intros _ _ Hcool Hn Hi. unfold shootBullet. apply ltb_ge in Hcool.
  rewrite Hcool. cbv zeta.
  cbn [bullets set_bullets set_player player Player.set_lastShot
       Player.bulletCount Player.bulletSize Player.x Player.y Player.width].
  rewrite nth_error_app2 by lia.
  replace (List.length (bullets r) + i - List.length (bullets r))%nat
    with i by lia.
  rewrite nth_error_map, nth_error_seq, (trips_of_nat _ _ Hn).
  apply Nat.ltb_lt in Hi. rewrite Hi. cbn [option_map Nat.add].
  eexists. split; [reflexivity |]. cbn.
  split; [| repeat split]. rewrite Hn. field.
Qed.

(** The default player, whose middle is at 300: one bullet, from 300 to
    306. *)
Lemma volley_layout_default :
  Player.x (player initialRefs) == inject_Z 275 /\
  (Player.bulletSize (player initialRefs) == 1 \/
   Player.bulletSize (player initialRefs) == 2) /\
  Player.fireRate (player initialRefs)
  <= 1000 - Player.lastShot (player initialRefs) /\
  Player.bulletCount (player initialRefs) == of_nat 1 /\
  (0 < 1)%nat /\
  map (fun b => (Qred (Bullet.x b), Qred (Bullet.width b)))
      (bullets (shootBullet 1000 initialRefs))
  = [(300, 6)].
Proof.
  assert (H1 : Player.fireRate (player initialRefs)
               <= 1000 - Player.lastShot (player initialRefs))
    by (vm_compute; discriminate).
  assert (H2 : Player.bulletCount (player initialRefs) == of_nat 1)
    by reflexivity.
  assert (H3 : (0 < 1)%nat) by lia.
  assert (Hx : Player.x (player initialRefs) == inject_Z 275) by reflexivity.
  assert (Hs : Player.bulletSize (player initialRefs) == 1 \/
               Player.bulletSize (player initialRefs) == 2)
    by (left; reflexivity).
  destruct (volley_layout initialRefs 1000 1 0 275 Hx Hs H1 H2 H3)
    as (b & Hb & _).
  split; [exact Hx |]. split; [exact Hs |].
  split; [exact H1 |]. split; [exact H2 |]. split; [exact H3 |].
  reflexivity.
Defined.

(** ** The route and its store *)

Lemma grown_differs (db : Route.Db) (s : number) : grown db s <> db.
Proof.
  intro H. apply (f_equal (fun d => List.length (Route.gameScore d))) in H.
  cbn in H. rewrite length_app in H. cbn in H. lia.
Qed.

Lemma greatest_snoc (rows : list Route.GameScore) (s : number) :
  (forall row, In row rows -> Route.score row < s) ->
  Route.greatest (rows ++ [Route.mkGameScore s]) = Some (Route.mkGameScore s).
Proof.
  induction rows as [| row rows IH]; intro H; cbn.
  - reflexivity.
  - rewrite IH by (intros r Hr; apply H; right; exact Hr).
    cbn. assert (Hlt : ltb (Route.score row) s = true)
      by (apply ltb_lt, H; left; reflexivity).
    rewrite Hlt. reflexivity.
Qed.

(** The two ways a request can end: a record is stored, for a score that
    is not negative and above all the stored ones, or the store is left as
    it is and no new record is reported. *)
Lemma POST_cases (request : option Route.json) (db : Route.Db) :
  (exists s,
      Route.POST request db = (Route.Submitted s true, grown db s) /\
      0 <= s /\ Route.online db = true /\
      forall row, In row (Route.gameScore db) -> Route.score row < s)
  \/
  (snd (Route.POST request db) = db /\
   forall h, fst (Route.POST request db) <> Route.Submitted h true).
Proof.
  unfold Route.POST, Route.findFirst, Route.create.
  destruct request as [body |]; [| right; split; [reflexivity | discriminate]].
  destruct (Route.scoreOf body) as [[| | s | | |] |];
    try (right; destruct body; split; try reflexivity; discriminate).
  destruct (ltb s 0) eqn:Hneg;
    [right; destruct body; split; try reflexivity; discriminate |].
  apply ltb_ge in Hneg.
  destruct (Route.online db) eqn:Hon;
    [| right; destruct body; split; try reflexivity; discriminate].
  destruct (Route.greatest (Route.gameScore db)) as [m |] eqn:Hm.
  - destruct (gtb s (Route.score m)) eqn:Hgt.
    + apply gtb_gt in Hgt.
      destruct (greatest_max (Route.gameScore db)) as [_ Hmax].
      destruct (Hmax m Hm) as [_ Hle].
      assert (Hall : forall row, In row (Route.gameScore db) ->
                                 Route.score row < s).
      { intros row Hr. eapply Qle_lt_trans; [apply Hle, Hr | exact Hgt]. }
      destruct body;
        try (right; split; [reflexivity | discriminate]);
        left; exists s; unfold grown; rewrite Hon; auto.
    + right. destruct body; split; try reflexivity; discriminate.
  - apply (proj1 (greatest_max (Route.gameScore db))) in Hm.
    assert (Hall : forall row, In row (Route.gameScore db) ->
                               Route.score row < s).
    { rewrite Hm. intros row []. }
    destruct body;
      try (right; split; [reflexivity | discriminate]);
      left; exists s; unfold grown; rewrite Hon; auto.
Qed.

(** X18: the answer says [isNewRecord] exactly when the request changed
    the store, and the change is then one record appended, holding the
    very score that the answer returns as the high score. *)
Theorem new_record_iff_stored (request : option Route.json) (db : Route.Db) :
  ((exists h, fst (Route.POST request db) = Route.Submitted h true) <->
   snd (Route.POST request db) <> db) /\
  (forall h, fst (Route.POST request db) = Route.Submitted h true ->
             snd (Route.POST request db)
             = Route.mkDb (Route.gameScore db ++ [Route.mkGameScore h])
                          (Route.online db)).
Proof.
  destruct (POST_cases request db) as [(s & E & _) | [Hsame Hnot]].
  - rewrite E. cbn [fst snd]. split.
    + split; [intros _; apply grown_differs | intros _; exists s; reflexivity].
    + intros h H. injection H as <-. reflexivity.
  - split.
    + split; [intros [h H]; destruct (Hnot h H) | intro H; destruct (H Hsame)].
    + intros h H. destruct (Hnot h H).
Qed.

(** A first record of 7, and a second submission of 7. *)
Lemma new_record_iff_stored_sample :
  fst (Route.POST (Some (Route.JObject [("score"%string, Route.JNumber 7)]))
                  (Route.mkDb [] true))
  = Route.Submitted 7 true /\
  snd (Route.POST (Some (Route.JObject [("score"%string, Route.JNumber 7)]))
                  (Route.mkDb [] true))
  = Route.mkDb [Route.mkGameScore 7] true.
Proof.
  assert (H : fst (Route.POST
                     (Some (Route.JObject [("score"%string, Route.JNumber 7)]))
                     (Route.mkDb [] true))
              = Route.Submitted 7 true) by reflexivity.
  destruct (new_record_iff_stored
              (Some (Route.JObject [("score"%string, Route.JNumber 7)]))
              (Route.mkDb [] true)) as [_ Hgrow].
  exact (conj H (Hgrow 7 H)).
Defined.

Lemma GET_grown (db : Route.Db) (s : number) :
  Route.online db = true ->
  (forall row, In row (Route.gameScore db) -> Route.score row < s) ->
  exists h, Route.GET (grown db s) = Route.Fetched h /\ h == s.
Proof.
  intros Hon Hall. unfold Route.GET, Route.findFirst, grown. cbn.
  rewrite Hon, (greatest_snoc _ _ Hall). cbn.
  eexists. split; [reflexivity |].
  destruct (Qeq_bool s 0) eqn:E; [| reflexivity].
  apply Qeq_bool_iff in E. symmetry. exact E.
Qed.

Lemma GET_online (db : Route.Db) :
  Route.online db = true ->
  exists h,
    Route.GET db = Route.Fetched h /\
    match Route.greatest (Route.gameScore db) with
    | Some m => h == Route.score m
    | None => h = 0
    end.
Proof.
  intro Hon. unfold Route.GET, Route.findFirst. rewrite Hon.
  eexists. split; [reflexivity |].
  destruct (Route.greatest (Route.gameScore db)) as [m |]; [| reflexivity].
  destruct (Qeq_bool (Route.score m) 0) eqn:E; [| reflexivity].
  apply Qeq_bool_iff in E. symmetry. exact E.
Qed.

(** X19: submitting and then fetching agree: for a score that is a number
    and not negative and a store that answers, the high score returned by
    the submission is at least the score and is what a fetch returns right
    after. *)
Theorem submit_then_fetch (body : Route.json) (s : number) (db : Route.Db) :
  body <> Route.JNull ->
  Route.scoreOf body = Some (Route.JNumber s) ->
  0 <= s ->
  Route.online db = true ->
  exists h new h',
    fst (Route.POST (Some body) db) = Route.Submitted h new /\
    s <= h /\
    Route.GET (snd (Route.POST (Some body) db)) = Route.Fetched h' /\
    h' == h.
Proof.
  intros Hnull Hscore Hpos Hon.
  rewrite (POST_valid body s db Hnull Hscore Hpos Hon).
  destruct (Route.greatest (Route.gameScore db)) as [m |] eqn:Hm.
  - destruct (gtb s (Route.score m)) eqn:Hgt.
    + apply gtb_gt in Hgt.
      destruct (proj2 (greatest_max (Route.gameScore db)) m Hm) as [_ Hle].
      destruct (GET_grown db s Hon) as (h' & Hget & Hh').
      { intros row Hr. eapply Qle_lt_trans; [apply Hle, Hr | exact Hgt]. }
      unfold grown in Hget. rewrite Hon in Hget.
      exists s, true, h'. cbn [fst snd].
      split; [reflexivity |]. split; [apply Qle_refl |].
      split; [exact Hget | exact Hh'].
    + apply gtb_le in Hgt.
      destruct (GET_online db Hon) as (h' & Hget & Hh'). rewrite Hm in Hh'.
      exists (Route.score m), false, h'. cbn [fst snd].
      split; [reflexivity |]. split; [exact Hgt |].
      split; [exact Hget | exact Hh'].
  - apply (proj1 (greatest_max (Route.gameScore db))) in Hm.
    destruct (GET_grown db s Hon) as (h' & Hget & Hh').
    { rewrite Hm. intros row []. }
    unfold grown in Hget. rewrite Hon in Hget.
    exists s, true, h'. cbn [fst snd].
    split; [reflexivity |]. split; [apply Qle_refl |].
    split; [exact Hget | exact Hh'].
Qed.

(** A score of 30 for a store whose maximum is 50. *)
Lemma submit_then_fetch_sample :
  Route.JObject [("score"%string, Route.JNumber 30)] <> Route.JNull /\
  Route.scoreOf (Route.JObject [("score"%string, Route.JNumber 30)])
  = Some (Route.JNumber 30) /\
  0 <= 30 /\
  Route.online (Route.mkDb [Route.mkGameScore 50] true) = true /\
  exists h new h',
    fst (Route.POST (Some (Route.JObject [("score"%string, Route.JNumber 30)]))
                    (Route.mkDb [Route.mkGameScore 50] true))
    = Route.Submitted h new /\
    30 <= h /\
    Route.GET
      (snd (Route.POST
              (Some (Route.JObject [("score"%string, Route.JNumber 30)]))
              (Route.mkDb [Route.mkGameScore 50] true)))
    = Route.Fetched h' /\
    h' == h.
Proof.
  assert (H1 : Route.JObject [("score"%string, Route.JNumber 30)]
               <> Route.JNull) by discriminate.
  assert (H2 : Route.scoreOf (Route.JObject [("score"%string, Route.JNumber 30)])
               = Some (Route.JNumber 30)) by reflexivity.
  assert (H3 : 0 <= 30) by (vm_compute; discriminate).
  assert (H4 : Route.online (Route.mkDb [Route.mkGameScore 50] true) = true)
    by reflexivity.
  exact (conj H1 (conj H2 (conj H3 (conj H4
          (submit_then_fetch _ 30 _ H1 H2 H3 H4))))).
Defined.

Lemma climbing_snoc (rows : list Route.GameScore) (s : number) :
  climbing rows -> 0 <= s ->
  (forall row, In row rows -> Route.score row < s) ->
  climbing (rows ++ [Route.mkGameScore s]).
Proof.
  induction rows as [| row rows IH]; intros Hc Hs Hall; cbn.
  - repeat split; [exact Hs | constructor].
  - destruct Hc as (H0 & Hlater & Hrest).
    split; [exact H0 |]. split.
    + apply Forall_app. split; [exact Hlater |].
      constructor; [apply Hall; left; reflexivity | constructor].
    + apply IH; [exact Hrest | exact Hs |].
      intros r Hr. apply Hall. right. exact Hr.
Qed.

Lemma submitAll_snoc (requests : list (option Route.json))
      (request : option Route.json) :
  submitAll (requests ++ [request])
  = snd (Route.POST request (submitAll requests)).
Proof. unfold submitAll. rewrite fold_left_app. reflexivity. Qed.

(** The route does not guard against overlapping requests: when 70 and 60
    are submitted to an empty store and both requests read the maximum
    before either creates its record, both are stored, 70 before 60. *)
Lemma overlap_breaks_order :
  Route.gameScore (overlapped 70 60 (Route.mkDb [] true))
  = [Route.mkGameScore 70; Route.mkGameScore 60] /\
  ~ climbing (Route.gameScore (overlapped 70 60 (Route.mkDb [] true))) /\
  Route.gameScore (submitAll
                     [Some (Route.JObject [("score"%string, Route.JNumber 70)]);
                      Some (Route.JObject [("score"%string, Route.JNumber 60)])])
  = [Route.mkGameScore 70].
Proof.
  split; [reflexivity |]. split; [| reflexivity].
  cbn. intros (_ & H & _). inversion H as [| ? ? Hlt _]; subst.
  cbn in Hlt. revert Hlt. apply Qle_not_lt. vm_compute. discriminate.
Qed.

(** X20: when the requests are handled one at a time, none overlapping
    another, a store that starts without records and is only written by
    the route holds scores that are not negative, in strictly increasing
    order of creation; it answers, and what a fetch returns is at least
    every stored score.  (Overlapping requests can break the order:
    [overlap_breaks_order].) *)
Theorem store_climbs (requests : list (option Route.json)) :
  Route.online (submitAll requests) = true /\
  climbing (Route.gameScore (submitAll requests)) /\
  exists h,
    Route.GET (submitAll requests) = Route.Fetched h /\
    0 <= h /\
    forall row, In row (Route.gameScore (submitAll requests)) ->
                Route.score row <= h.
Proof.
  assert (Hinv : Route.online (submitAll requests) = true /\
                 climbing (Route.gameScore (submitAll requests))).
  { induction requests as [| request requests [IHon IHc]] using rev_ind.
    - split; [reflexivity | exact I].
    - rewrite submitAll_snoc.
      destruct (POST_cases request (submitAll requests))
        as [(s & E & Hs & _ & Hall) | [-> _]]; [| auto].
      rewrite E. cbn [snd grown Route.online Route.gameScore].
      split; [exact IHon | apply climbing_snoc; assumption]. }
  destruct Hinv as [Hon Hc]. split; [exact Hon |]. split; [exact Hc |].
  destruct (GET_online _ Hon) as (h & Hget & Hh).
  exists h. split; [exact Hget |].
  destruct (Route.greatest (Route.gameScore (submitAll requests)))
    as [m |] eqn:Hm.
  - destruct (proj2 (greatest_max _) m Hm) as [Hin Hmax].
    assert (H0 : 0 <= Route.score m).
    { revert Hc Hin. generalize (Route.gameScore (submitAll requests)).
      induction l as [| row l IH]; cbn; [tauto |].
      intros (Hrow & _ & Hrest) [<- | Hin]; [exact Hrow | auto]. }
    split; [rewrite Hh; exact H0 |].
    intros row Hr. rewrite Hh. apply Hmax, Hr.
  - apply (proj1 (greatest_max _)) in Hm. rewrite Hm, Hh.
    split; [apply Qle_refl | intros row []].
Qed.

(** X21: submitting the same valid score a second time never reports a new
    record and stores nothing. *)
Theorem resubmission_is_no_record
        (body : Route.json) (s : number) (db : Route.Db) :
  body <> Route.JNull ->
  Route.scoreOf body = Some (Route.JNumber s) ->
  0 <= s ->
  Route.online db = true ->
  exists h,
    Route.POST (Some body) (snd (Route.POST (Some body) db))
    = (Route.Submitted h false, snd (Route.POST (Some body) db)) /\
    s <= h.
Proof.
  intros Hnull Hscore Hpos Hon.
  destruct (POST_cases (Some body) db)
    as [(s' & E & _ & _ & Hall) | [Hsame Hnot]].
  - assert (s' = s) as ->.
    { rewrite (POST_valid body s db Hnull Hscore Hpos Hon) in E.
      destruct (Route.greatest (Route.gameScore db)) as [m |];
        [destruct (gtb s (Route.score m)) |]; congruence. }
    rewrite E. cbn [snd].
    rewrite (POST_valid body s (grown db s) Hnull Hscore Hpos Hon).
    cbn [grown Route.gameScore]. rewrite (greatest_snoc _ _ Hall).
    cbn [Route.score].
    assert (Hno : gtb s s = false) by (apply gtb_le, Qle_refl).
    rewrite Hno. exists s. split; [reflexivity | apply Qle_refl].
  - rewrite Hsame.
    pose proof (POST_valid body s db Hnull Hscore Hpos Hon) as E.
    destruct (Route.greatest (Route.gameScore db)) as [m |].
    + destruct (gtb s (Route.score m)) eqn:Hgt.
      * exfalso. apply (Hnot s). rewrite E. reflexivity.
      * exists (Route.score m). split; [exact E | apply gtb_le, Hgt].
    + exfalso. apply (Hnot s). rewrite E. reflexivity.
Qed.

(** The score 70, twice, for a store whose maximum is 50. *)
Lemma resubmission_is_no_record_sample :
  Route.JObject [("score"%string, Route.JNumber 70)] <> Route.JNull /\
  Route.scoreOf (Route.JObject [("score"%string, Route.JNumber 70)])
  = Some (Route.JNumber 70) /\
  0 <= 70 /\
  Route.online (Route.mkDb [Route.mkGameScore 50] true) = true /\
  exists h,
    Route.POST
      (Some (Route.JObject [("score"%string, Route.JNumber 70)]))
      (snd (Route.POST
              (Some (Route.JObject [("score"%string, Route.JNumber 70)]))
              (Route.mkDb [Route.mkGameScore 50] true)))
    = (Route.Submitted h false,
       snd (Route.POST
              (Some (Route.JObject [("score"%string, Route.JNumber 70)]))
              (Route.mkDb [Route.mkGameScore 50] true))) /\
    70 <= h.
Proof.
  assert (H1 : Route.JObject [("score"%string, Route.JNumber 70)]
               <> Route.JNull) by discriminate.
  assert (H2 : Route.scoreOf (Route.JObject [("score"%string, Route.JNumber 70)])
               = Some (Route.JNumber 70)) by reflexivity.
  assert (H3 : 0 <= 70) by (vm_compute; discriminate).
  assert (H4 : Route.online (Route.mkDb [Route.mkGameScore 50] true) = true)
    by reflexivity.
  exact (conj H1 (conj H2 (conj H3 (conj H4
          (resubmission_is_no_record _ 70 _ H1 H2 H3 H4))))).
Defined.



(** X23: a request never lowers what a fetch returns. *)
Theorem high_score_never_drops
        (request : option Route.json) (db : Route.Db) (h h' : number) :
  Route.GET db = Route.Fetched h ->
  Route.GET (snd (Route.POST request db)) = Route.Fetched h' ->
  h <= h'.
Proof.
  intros Hget Hget'.
  destruct (POST_cases request db)
    as [(s & E & Hs & Hon & Hall) | [Hsame _]].
  - rewrite E in Hget'. cbn [snd] in Hget'.
    destruct (GET_grown db s Hon Hall) as (v & Hv & Hvs).
    rewrite Hv in Hget'. injection Hget' as <-.
    destruct (GET_online db Hon) as (w & Hw & Hwm).
    rewrite Hw in Hget. injection Hget as <-.
    destruct (Route.greatest (Route.gameScore db)) as [m |] eqn:Hm.
    + destruct (proj2 (greatest_max _) m Hm) as [Hin _].
      rewrite Hwm, Hvs. apply Qlt_le_weak, Hall, Hin.
    + rewrite Hwm, Hvs. exact Hs.
  - rewrite Hsame in Hget'. rewrite Hget in Hget'. injection Hget' as <-.
    apply Qle_refl.
Qed.

(** From a maximum of 50 to one of 70. *)
Lemma high_score_never_drops_sample :
  Route.GET (Route.mkDb [Route.mkGameScore 50] true) = Route.Fetched 50 /\
  Route.GET
    (snd (Route.POST
            (Some (Route.JObject [("score"%string, Route.JNumber 70)]))
            (Route.mkDb [Route.mkGameScore 50] true)))
  = Route.Fetched 70 /\
  50 <= 70.
Proof.
  assert (H1 : Route.GET (Route.mkDb [Route.mkGameScore 50] true)
               = Route.Fetched 50) by reflexivity.
  assert (H2 : Route.GET
                 (snd (Route.POST
                         (Some (Route.JObject
                                  [("score"%string, Route.JNumber 70)]))
                         (Route.mkDb [Route.mkGameScore 50] true)))
               = Route.Fetched 70) by reflexivity.
  exact (conj H1 (conj H2 (high_score_never_drops _ _ 50 70 H1 H2))).
Defined.

(** ** The two requests of the component *)

Lemma updateHighScore_cases (newScore : number) (db : Route.Db) (h : Hooks) :
  (exists v,
      updateHighScore newScore db h
      = (mkHooks (gameState h) (score h) v (health h) true, grown db newScore)
      /\ v = newScore /\ 0 <= newScore /\ Route.online db = true /\
      forall row, In row (Route.gameScore db) -> Route.score row < newScore)
  \/
  (exists m,
      updateHighScore newScore db h
      = (mkHooks (gameState h) (score h) (Route.score m) (health h) false, db)
      /\ Route.online db = true /\
      Route.greatest (Route.gameScore db) = Some m /\
      newScore <= Route.score m)
  \/
  (updateHighScore newScore db h = (h, db) /\
   (Route.online db = false \/ newScore < 0)).
Proof.
  unfold updateHighScore, Route.POST, Route.findFirst, Route.create.
  cbn [Route.scoreOf Route.property String.eqb Ascii.eqb Bool.eqb].
  destruct (ltb newScore 0) eqn:Hneg.
  { right. right. split; [reflexivity | right; apply ltb_lt, Hneg]. }
  apply ltb_ge in Hneg.
  destruct (Route.online db) eqn:Hon;
    [| right; right; split; [reflexivity | left; reflexivity]].
  destruct (Route.greatest (Route.gameScore db)) as [m |] eqn:Hm.
  - destruct (gtb newScore (Route.score m)) eqn:Hgt.
    + left. exists newScore. unfold grown. rewrite Hon.
      split; [reflexivity |]. split; [reflexivity |]. split; [exact Hneg |].
      split; [reflexivity |].
      intros row Hr. apply gtb_gt in Hgt.
      destruct (proj2 (greatest_max _) m Hm) as [_ Hmax].
      specialize (Hmax row Hr). lra.
    + right. left. exists m. split; [reflexivity |].
      split; [reflexivity |]. split; [reflexivity | apply gtb_le, Hgt].
  - left. exists newScore. unfold grown. rewrite Hon.
    split; [reflexivity |]. split; [reflexivity |]. split; [exact Hneg |].
    split; [reflexivity |].
    apply (proj1 (greatest_max _)) in Hm. rewrite Hm. intros row [].
Qed.

(** X24: the component against the route.  After [fetchHighScore] has
    shown the high score of the store, [updateHighScore] never lowers the
    displayed high score, leaves the state of the game, the score and the
    displayed health alone, and raises the new-record flag whenever it
    changed the store; when it did not, the flag is cleared, or left as it
    was if the request failed.  A later [fetchHighScore] displays the same
    high score again.  This holds for every score and every store,
    answering or not. *)
Theorem display_follows_store (newScore : number) (db : Route.Db) (h : Hooks) :
  highScore (fetchHighScore db h)
  <= highScore (fst (updateHighScore newScore db (fetchHighScore db h))) /\
  gameState (fst (updateHighScore newScore db (fetchHighScore db h)))
  = gameState h /\
  score (fst (updateHighScore newScore db (fetchHighScore db h))) = score h /\
  health (fst (updateHighScore newScore db (fetchHighScore db h))) = health h /\
  (snd (updateHighScore newScore db (fetchHighScore db h)) <> db ->
   isNewRecord (fst (updateHighScore newScore db (fetchHighScore db h)))
   = true) /\
  (snd (updateHighScore newScore db (fetchHighScore db h)) = db ->
   isNewRecord (fst (updateHighScore newScore db (fetchHighScore db h)))
   = isNewRecord h
   \/ isNewRecord (fst (updateHighScore newScore db (fetchHighScore db h)))
      = false) /\
  highScore
    (fetchHighScore
       (snd (updateHighScore newScore db (fetchHighScore db h)))
       (fst (updateHighScore newScore db (fetchHighScore db h))))
  == highScore (fst (updateHighScore newScore db (fetchHighScore db h))).
Proof.
  assert (Hkept : gameState (fetchHighScore db h) = gameState h /\
                  score (fetchHighScore db h) = score h /\
                  health (fetchHighScore db h) = health h /\
                  isNewRecord (fetchHighScore db h) = isNewRecord h).
  { unfold fetchHighScore. destruct (Route.GET db); repeat split. }
  destruct Hkept as (Kg & Ks & Kh & Kn).
  destruct (updateHighScore_cases newScore db (fetchHighScore db h))
    as [(v & E & -> & Hpos & Hon & Hall)
       | [(m & E & Hon & Hm & Hle) | (E & Hwhy)]];
    rewrite E; cbn [fst snd highScore gameState score health isNewRecord].
  - split.
    { unfold fetchHighScore.
      destruct (GET_online db Hon) as (w & Hw & Hwm). rewrite Hw. cbn.
      destruct (Route.greatest (Route.gameScore db)) as [m |] eqn:Hm.
      - destruct (proj2 (greatest_max _) m Hm) as [Hin _].
        rewrite Hwm. apply Qlt_le_weak, Hall, Hin.
      - rewrite Hwm. exact Hpos. }
    split; [exact Kg |]. split; [exact Ks |]. split; [exact Kh |].
    split; [intros _; reflexivity |].
    split; [intro Hsame; exfalso; exact (grown_differs _ _ Hsame) |].
    unfold fetchHighScore.
    destruct (GET_grown db newScore Hon Hall) as (w & Hw & Hws).
    rewrite Hw. cbn. exact Hws.
  - assert (Hshown : highScore (fetchHighScore db h) == Route.score m).
    { unfold fetchHighScore.
      destruct (GET_online db Hon) as (w & Hw & Hwm). rewrite Hw, Hm in *.
      cbn. exact Hwm. }
    split; [rewrite Hshown; apply Qle_refl |].
    split; [exact Kg |]. split; [exact Ks |]. split; [exact Kh |].
    split; [intro Hne; exfalso; apply Hne; reflexivity |].
    split; [intros _; right; reflexivity |].
    unfold fetchHighScore at 1.
    destruct (GET_online db Hon) as (w & Hw & Hwm). rewrite Hw, Hm in *.
    cbn. exact Hwm.
  - split; [apply Qle_refl |].
    split; [exact Kg |]. split; [exact Ks |]. split; [exact Kh |].
    split; [intro Hne; exfalso; apply Hne; reflexivity |].
    split; [intros _; left; exact Kn |].
    unfold fetchHighScore at 1.
    destruct (Route.GET db) eqn:Hget; cbn; try reflexivity.
    unfold fetchHighScore. rewrite Hget. reflexivity.
Qed.

(** ** The keyboard *)

(** X25: a key that was not held, pressed and released again, leaves the
    movement of the player as it was; a repeated press (auto-repeat of a
    held key) records nothing new; and a press cancels the default action
    of the browser exactly for the four arrows and the space bar, so not
    for the letters that move the plane as well. *)
Theorem key_press_release (code : string) (keys : string -> bool)
        (p : Player.t) :
  (keys code = false ->
   movePlayer (handleKeyUp code (fst (handleKeyDown code keys))) p
   = movePlayer keys p) /\
  (forall k,
      fst (handleKeyDown code (fst (handleKeyDown code keys))) k
      = fst (handleKeyDown code keys) k) /\
  (snd (handleKeyDown code keys) = true <->
   In code ["ArrowUp"; "ArrowDown"; "ArrowLeft"; "ArrowRight"; "Space"]%string).
Proof.
  split; [| split].
  - intro Hfree.
    assert (Hsame : forall k,
               handleKeyUp code (fst (handleKeyDown code keys)) k = keys k).
    { intro k. unfold handleKeyUp, handleKeyDown. cbn [fst].
      destruct (String.eqb k code) eqn:E; [| reflexivity].
      apply String.eqb_eq in E. subst k. symmetry. exact Hfree. }
    unfold movePlayer, held. rewrite !Hsame. reflexivity.
  - intro k. unfold handleKeyDown. cbn [fst].
    destruct (String.eqb k code); reflexivity.
  - unfold handleKeyDown. cbn [snd]. rewrite existsb_exists. split.
    + intros (k & Hin & E). apply String.eqb_eq in E. subst k. exact Hin.
    + intro Hin. exists code. split; [exact Hin | apply String.eqb_refl].
Qed.

(** The key [KeyA], pressed and released while nothing else is held. *)
Lemma key_press_release_sample :
  noKeys "KeyA"%string = false /\
  movePlayer
    (handleKeyUp "KeyA" (fst (handleKeyDown "KeyA" noKeys))) initialPlayer
  = movePlayer noKeys initialPlayer /\
  snd (handleKeyDown "KeyA" noKeys) = false.
Proof.
  assert (H : noKeys "KeyA"%string = false) by reflexivity.
  split; [exact H |].
  split; [exact (proj1 (key_press_release "KeyA" noKeys initialPlayer) H) |].
  reflexivity.
Defined.
